(** * The Amazons game server (index.js): socket handlers over the registries

    The development embeds the socket.io handlers of [index.js] as functions
    on an explicit server state.  The three process-wide objects [clients],
    [match_invites] and [matches] are finite maps; a handler returns either
    the new state together with the effects it performed, or [Throw] when a
    JavaScript exception escapes it. *)

From Stdlib Require Import ZArith Ascii String List Lia.
From stdpp Require Import base option gmap strings list fin_maps.
Import ListNotations.

Local Open Scope string_scope.
Local Open Scope Z_scope.

(** ** JavaScript values and plain-object lookup *)

Module JS.

(** The values that flow through seat comparisons: [undefined], [null] and
    integers. *)
Inductive jsval : Type :=
| JUndefined
| JNull
| JNum (z : Z).

(** The abstract equality [a == b] on those values: [undefined] and [null]
    are equal to each other and to nothing else. *)
Definition loose_eq (a b : jsval) : bool :=
  match a, b with
  | JNum x, JNum y => Z.eqb x y
  | JNum _, _ | _, JNum _ => false
  | _, _ => true
  end.

(** Property names every object literal [{}] inherits from
    [Object.prototype]. *)
Definition object_prototype_keys : list string :=
  [ "constructor"; "__defineGetter__"; "__defineSetter__"; "hasOwnProperty";
    "__lookupGetter__"; "__lookupSetter__"; "isPrototypeOf";
    "propertyIsEnumerable"; "toString"; "valueOf"; "__proto__";
    "toLocaleString" ].

Definition is_proto_key (k : string) : bool :=
  existsb (String.eqb k) object_prototype_keys.

(** Result of reading [obj[k]] on an object used as a dictionary. *)
Inductive lookup_result (V : Type) : Type :=
| Own (v : V)      (* an entry stored under k *)
| Inherited        (* nothing stored, but k names a built-in of Object.prototype:
                      the read yields that (truthy) built-in *)
| Missing.         (* undefined *)
Arguments Own {V} v.
Arguments Inherited {V}.
Arguments Missing {V}.

Definition get {V : Type} (obj : gmap string V) (k : string) : lookup_result V :=
  match obj !! k with
  | Some v => Own v
  | None => if is_proto_key k then Inherited else Missing
  end.

(** Truthiness of a string: only the empty string is falsy. *)
Definition truthy_string (s : string) : bool :=
  negb (String.eqb s "").

End JS.
Export JS.

(** ** Handler results *)

Inductive result (St Ef : Type) : Type :=
| Done (st : St) (effs : list Ef)   (* the handler returned *)
| Throw.                            (* an exception left the handler *)
Arguments Done {St Ef} st effs.
Arguments Throw {St Ef}.

(** ** Data carried by the requests *)

(** [{x, y}] *)
Record coord : Type := { cx : Z; cy : Z }.

(** An element of the parsed [settings.piece_config]. *)
Record piece : Type := { px : Z; py : Z; owner : Z }.

(** An element of [settings.players].  An absent [id] is the empty string
    (both are falsy in [genID]). *)
Record player : Type := { p_id : string; p_type : string; p_accepted : string }.

(** The [match_start] payload, with [piece_config] already through
    [JSON.parse] and the two numbers through [parseInt]. *)
Record settings : Type :=
  { players : list player;
    piece_config : list piece;
    board_size : Z;
    turn_timer : Z }.

Record move_data : Type := { mv_match_id : string; mv_from : coord; mv_to : coord }.
Record burn_data : Type := { bn_match_id : string; bn_tile : coord }.

(** An entry of [match_invites]. *)
Record invite : Type := { inv_from : string; inv_to : string }.

(** Outcome handed to the callback of [pg_pool.query]: an error, or the
    [user_id] column of the rows found. *)
Inductive db_result : Type :=
| DbErr
| DbRows (user_ids : list string).

(** ** Client objects *)

(** Modelled from the spec: public/js/client.js is not under src/, and the
    spec leaves per-connection identity to the session layer.  The record
    keeps the fields index.js reads ([id], [username]; the [socket] field is
    the handle the object is stored under), and each setter assigns the field
    it names. *)
Record Client : Type := { id : string; username : option string }.

Definition changeID (c : Client) (new_id : string) : Client :=
  {| id := new_id; username := username c |}.

Definition setUsername (c : Client) (u : string) : Client :=
  {| id := id c; username := Some u |}.

(** [clients[c].username] used as a condition. *)
Definition has_username (c : Client) : bool :=
  match username c with
  | Some u => truthy_string u
  | None => false
  end.

(** ** The modules index.js requires from public/js *)

(** The game classes are used through their methods only.  A match object is
    mutated in place by its methods; here each method returns the object
    after the call. *)
Class GameModules : Type :=
  { Board : Type;
    Tile : Type;
    Match : Type;
    (* new Board(size, pieces) *)
    new_Board : Z -> list piece -> Board;
    (* new Amazons(match_id, players, board, turn_timer, game_logic, AI) *)
    new_Amazons : string -> list player -> Board -> Z -> Match;
    setPlayer : Match -> string -> Z -> Match;
    begin : Match -> gmap string nat -> Match;
    getInternalId : Match -> string -> jsval;
    turn : Match -> jsval;
    (* game.board.board, the grid indexed as board[x][y]: an array of
       arrays, where an index out of range reads undefined *)
    board_tiles : Match -> list (list Tile);
    tile_owner : Tile -> jsval;
    (* truthiness of the value returned, and the object after the call *)
    attemptMove : Match -> coord -> coord -> bool * Match;
    attemptBurn : Match -> coord -> bool * Match;
    (* client.ready() *)
    ready : Client -> bool }.

(** ** Effects and server state *)

(** Payloads of the messages index.js emits. *)
Inductive payload : Type :=
| PNone
| PString (s : string)
| PCoord (c : coord)
| PMatchInvite (from : option string) (match_invite_id : string)
| PSetInviteId (player : string) (match_invite_id : string)
| PInviteResponse (player_id : option string) (match_invite_id : string)
                  (response : string)
| PUsers (users : list (string * option string)).

Section Server.

Context `{GM : GameModules}.

(** The successive values of [Math.random().toString(36).substr(2, 9)]. *)
Variable random_suffix : nat -> string.

Inductive effect : Type :=
| SocketEmit (sock : nat) (event : string) (p : payload)  (* socket.emit *)
| IoEmit (event : string) (p : payload)                   (* io.emit *)
| DbQuery (sock : nat) (sql : string) (vars : list string)
| Log (caller message : string)
| BeginMatch (match_id : string)                 (* game.begin(clients) *)
| EmitBoard (match_id : string) (game : Match).  (* game.emitBoard(clients) *)

(** [clients], [match_invites] and [matches] are the three global objects.
    [clients] stores references: [objects] holds the [Client] object each
    connection handler closes over, keyed by its socket.  [draws] counts
    the calls to [Math.random] so far. *)
Record state : Type :=
  { clients : gmap string nat;
    objects : gmap nat Client;
    match_invites : gmap string invite;
    matches : gmap string Match;
    draws : nat }.

Definition set_clients (st : state) (c : gmap string nat) : state :=
  {| clients := c; objects := objects st; match_invites := match_invites st;
     matches := matches st; draws := draws st |}.
Definition set_objects (st : state) (o : gmap nat Client) : state :=
  {| clients := clients st; objects := o; match_invites := match_invites st;
     matches := matches st; draws := draws st |}.
Definition set_match_invites (st : state) (i : gmap string invite) : state :=
  {| clients := clients st; objects := objects st; match_invites := i;
     matches := matches st; draws := draws st |}.
Definition set_matches (st : state) (m : gmap string Match) : state :=
  {| clients := clients st; objects := objects st;
     match_invites := match_invites st; matches := m; draws := draws st |}.
Definition set_draws (st : state) (n : nat) : state :=
  {| clients := clients st; objects := objects st;
     match_invites := match_invites st; matches := matches st; draws := n |}.

Definition handler_result : Type := result state effect.

(** ** Helper functions *)

(** [genID(type)] at the [n]-th draw; [type] empty stands for the default
    [null]. *)
Definition genID (type : string) (n : nat) : string :=
  if truthy_string type
  then type ++ "_" ++ random_suffix n
  else "_" ++ random_suffix n.

(** [arr[i]] on an array for an integer [i]: [None] is [undefined]. *)
Definition js_index {A : Type} (arr : list A) (i : Z) : option A :=
  if 0 <=? i then arr !! Z.to_nat i else None.

(** The list sent as [users_list]: the named clients of the registry.  The
    order in which [Object.keys] lists them is not modelled. *)
Definition users_info (st : state) : list (string * option string) :=
  omap (fun kv : string * nat =>
          match objects st !! snd kv with
          | Some c => if has_username c then Some (id c, username c) else None
          | None => None
          end)
       (map_to_list (clients st)).

(** ** Connection and username *)

Definition on_connection (st : state) (sock : nat) : handler_result :=
  let client := {| id := genID "" (draws st); username := None |} in
  Done {| clients := <[id client := sock]> (clients st);
          objects := <[sock := client]> (objects st);
          match_invites := match_invites st;
          matches := matches st;
          draws := S (draws st) |}
       [ Log "socket.io" "A client has connected";
         SocketEmit sock "id" (PString (id client)) ].

Definition set_username (st : state) (sock : nat) (client : Client)
           (username : string) : handler_result :=
  if (3 <=? String.length username)%nat && (String.length username <=? 20)%nat
  then
    let st' := set_objects st (<[sock := setUsername client username]> (objects st)) in
    Done st'
         [ DbQuery sock "SELECT * FROM users WHERE username = $1;" [username];
           SocketEmit sock "username_set" (PString username);
           Log "socket.io" "Client has set username";
           IoEmit "users_list" (PUsers (users_info st')) ]
  else
    Done st
         [ SocketEmit sock "error_message"
             (PString "Username must be 3 to 20 characters long (inclusive)");
           Log "socket.io" "Client has attempted to set an invalid username" ].

(** Callback of the SELECT issued by [set_username]. *)
Definition select_done (st : state) (sock : nat) (client : Client)
           (username : string) (r : db_result) : handler_result :=
  match r with
  | DbErr => Done st [ SocketEmit sock "logged_in" PNone ]
  | DbRows [] =>
      Done st
           [ DbQuery sock "INSERT INTO users (username, user_id) VALUES ($1, $2);"
               [username; id client] ]
  | DbRows (user_id :: _) =>
      let old_id := id client in
      let client' := changeID client user_id in
      Done (set_clients
              (set_objects st (<[sock := client']> (objects st)))
              (delete old_id (<[id client' := sock]> (clients st))))
           [ SocketEmit sock "id" (PString (id client'));
             SocketEmit sock "logged_in" PNone ]
  end.

(** Callback of the INSERT issued by [select_done]. *)
Definition insert_done (st : state) (sock : nat) : handler_result :=
  Done st [ SocketEmit sock "logged_in" PNone ].

(** ** Match setup *)

Definition player_invite (st : state) (sock : nat) (client : Client)
           (player_id : string) : handler_result :=
  if negb (ready client) then Done st []
  else
    let match_invite_id := genID "matchinvite" (draws st) in
    let st' :=
      set_draws
        (set_match_invites st
           (<[match_invite_id := {| inv_from := id client; inv_to := player_id |}]>
              (match_invites st)))
        (S (draws st)) in
    let logged := Log "socket.io" "Match invite sent" in
    match JS.get (clients st) player_id with
    | Own peer =>
        Done st'
             [ SocketEmit peer "match_invite"
                 (PMatchInvite (username client) match_invite_id);
               SocketEmit sock "set_invite_id"
                 (PSetInviteId player_id match_invite_id);
               logged ]
    | Inherited => Throw   (* a built-in has no socket: undefined.emit *)
    | Missing => Done st' [ logged ]
    end.

(** [match_invites[match_invite_id].from] and [.to]: [None] when reading
    the field throws, [Some (None, None)] when both are [undefined]. *)
Definition invite_fields (r : lookup_result invite)
  : option (option string * option string) :=
  match r with
  | Own i => Some (Some (inv_from i), Some (inv_to i))
  | Inherited => Some (None, None)
  | Missing => None
  end.

(** Property name an optional string is converted to. *)
Definition property_key (k : option string) : string :=
  match k with
  | Some s => s
  | None => "undefined"
  end.

(** Body shared by [match_accept] and [match_decline], which differ in the
    [response] sent and in the message logged. *)
Definition invite_reply (response message : string) (st : state)
           (match_invite_id : string) : handler_result :=
  match invite_fields (JS.get (match_invites st) match_invite_id) with
  | None => Throw
  | Some (from, to) =>
      (* Check whether the requester is still around *)
      match JS.get (clients st) (property_key from) with
      | Missing => Done st []
      | Inherited => Throw   (* a built-in has no socket: undefined.emit *)
      | Own requester =>
          Done (set_match_invites st (delete match_invite_id (match_invites st)))
               [ SocketEmit requester "invite_response"
                   (PInviteResponse to match_invite_id response);
                 Log "socket.io" message ]
      end
  end.

Definition match_accept : state -> string -> handler_result :=
  invite_reply "accepted" "Match invite accepted".

Definition match_decline : state -> string -> handler_result :=
  invite_reply "declined" "Match invite declined".

Definition with_id (p : player) (new_id : string) : player :=
  {| p_id := new_id; p_type := p_type p; p_accepted := p_accepted p |}.

(** Accumulator of the first loop of [match_start]. *)
Record accepted_acc : Type :=
  { n_players : Z; players_real : list player; acc_draws : nat }.

(** One iteration of the loop over [settings.players]. *)
Definition accept_player (acc : accepted_acc) (p : player) : accepted_acc :=
  if String.eqb (p_accepted p) "accepted" then
    (* If the player is a bot, give them a unique ID *)
    let '(p', d) :=
      if String.eqb (p_type p) "bot"
      then (with_id p (genID (p_id p) (acc_draws acc)), S (acc_draws acc))
      else (p, acc_draws acc) in
    {| n_players := n_players acc + 1;
       players_real := players_real acc ++ [p'];
       acc_draws := d |}
  else acc.

Definition accepted_players (ps : list player) (d : nat) : accepted_acc :=
  fold_left accept_player ps
            {| n_players := 0; players_real := []; acc_draws := d |}.

(** The loop over the parsed pieces. *)
Definition correct_players (pieces : list piece) : Z :=
  fold_left (fun cp pc => if owner pc >? cp then owner pc else cp) pieces 0.

(** The loop [for (i = start; ...)] over the players still to be set; both
    calls of each iteration are kept. *)
Fixpoint set_players (game : Match) (ps : list player) (i : Z) : Match :=
  match ps with
  | [] => game
  | p :: ps' =>
      set_players (setPlayer (setPlayer game (p_id p) i) (p_id p) i) ps' (i + 1)
  end.

Definition match_start (st : state) (s : settings) : handler_result :=
  (* Make sure the match is valid *)
  let acc := accepted_players (players s) (draws st) in
  let pieces := piece_config s in
  if negb (n_players acc =? correct_players pieces + 1) then
    Done (set_draws st (acc_draws acc)) []
  else
    (* Initialize the match data *)
    let match_id := genID "match" (acc_draws acc) in
    let board := new_Board (board_size s) pieces in
    let game :=
      new_Amazons match_id (players_real acc) board (turn_timer s) in
    (* Set players *)
    let game := set_players game (firstn (Z.to_nat (n_players acc)) (players_real acc)) 0 in
    let game := begin game (clients st) in
    Done (set_draws (set_matches st (<[match_id := game]> (matches st)))
                    (S (acc_draws acc)))
         [ Log "socket.io" "Match begun";
           BeginMatch match_id;
           EmitBoard match_id game ].

(** ** Match interaction *)

Definition attempt_move (st : state) (sock : nat) (client : Client)
           (data : move_data) : handler_result :=
  match JS.get (matches st) (mv_match_id data) with
  | Missing => Done st []   (* Invalid match ID *)
  | Inherited => Throw      (* a built-in has no board: undefined.board *)
  | Own game =>
      let board := board_tiles game in
      let miid := getInternalId game (id client) in
      match js_index board (cx (mv_from data)) with
      | None => Throw       (* undefined[data.from.y] *)
      | Some column =>
          match js_index column (cy (mv_from data)) with
          | None => Throw   (* undefined.owner *)
          | Some tile =>
              (* Ensure that the move is valid *)
              if loose_eq (tile_owner tile) miid && loose_eq (turn game) miid
              then
                let '(ok, game') :=
                  attemptMove game (mv_from data) (mv_to data) in
                let st' :=
                  set_matches st (<[mv_match_id data := game']> (matches st)) in
                if ok
                then Done st'
                          [ SocketEmit sock "move_success" (PCoord (mv_to data));
                            EmitBoard (mv_match_id data) game' ]
                else Done st' []
              else Done st []
          end
      end
  end.

Definition attempt_burn (st : state) (sock : nat) (client : Client)
           (data : burn_data) : handler_result :=
  match JS.get (matches st) (bn_match_id data) with
  | Missing => Done st []   (* Invalid match ID *)
  | Inherited => Throw      (* a built-in has no getInternalId method *)
  | Own game =>
      let miid := getInternalId game (id client) in
      (* Ensure that the move is valid *)
      if loose_eq (turn game) miid
      then
        let '(ok, game') := attemptBurn game (bn_tile data) in
        let st' :=
          set_matches st (<[bn_match_id data := game']> (matches st)) in
        if ok
        then Done st'
                  [ SocketEmit sock "burn_success" PNone;
                    EmitBoard (bn_match_id data) game' ]
        else Done st' []
      else Done st []
  end.

(** ** Cleanup *)

Definition disconnect (st : state) (client : Client) : handler_result :=
  let st' := set_clients st (delete (id client) (clients st)) in
  Done st'
       [ Log "socket.io" "A client has disconnected";
         IoEmit "users_list" (PUsers (users_info st')) ].

(** ** Dispatch *)

(** What can reach the listeners of one socket: the events the peer sends
    and the two database callbacks. *)
Inductive request : Type :=
| SetUsername (username : string)
| SelectDone (username : string) (r : db_result)
| InsertDone
| PlayerInvite (player_id : string)
| MatchAccept (match_invite_id : string)
| MatchDecline (match_invite_id : string)
| MatchStart (s : settings)
| AttemptMove (data : move_data)
| AttemptBurn (data : burn_data)
| Disconnect.

(** The listeners registered on [sock] close over its [Client] object; a
    socket that never connected has none. *)
Definition handle (st : state) (sock : nat) (req : request) : handler_result :=
  match objects st !! sock with
  | None => Done st []
  | Some client =>
      match req with
      | SetUsername u => set_username st sock client u
      | SelectDone u r => select_done st sock client u r
      | InsertDone => insert_done st sock
      | PlayerInvite p => player_invite st sock client p
      | MatchAccept i => match_accept st i
      | MatchDecline i => match_decline st i
      | MatchStart s => match_start st s
      | AttemptMove d => attempt_move st sock client d
      | AttemptBurn d => attempt_burn st sock client d
      | Disconnect => disconnect st client
      end
  end.

End Server.

(** ** A match engine following the specification *)

Module SpecEngine.

(** Modelled from the spec: public/js/board.js is not under src/.  A tile
    is Empty, Occupied by a seat, or Burned (section 3); the grid is an
    S x S square read as [board[x][y]]. *)
Inductive tile : Type :=
| Empty
| Occupied (seat : Z)
| Burned.

Definition tile_eqb (a b : tile) : bool :=
  match a, b with
  | Empty, Empty | Burned, Burned => true
  | Occupied s, Occupied s' => Z.eqb s s'
  | _, _ => false
  end.

Definition grid : Type := list (list tile).

(** Modelled from the spec: [tileAt(x, y)] of section 4.1, [None] for
    OutOfBounds. *)
Definition tileAt (g : grid) (c : coord) : option tile :=
  match js_index g (cx c) with
  | Some column => js_index column (cy c)
  | None => None
  end.

Definition is_tile (g : grid) (c : coord) (t : tile) : bool :=
  match tileAt g c with
  | Some t' => tile_eqb t t'
  | None => false
  end.

(** Writes a tile; coordinates outside the grid leave it as it is. *)
Definition set_tile (g : grid) (c : coord) (t : tile) : grid :=
  match tileAt g c with
  | Some _ =>
      alter (fun column => <[Z.to_nat (cy c) := t]> column) (Z.to_nat (cx c)) g
  | None => g
  end.

(** Modelled from the spec: the initial placement is a list of
    (x, y, owner) triples on an empty S x S grid (section 3). *)
Definition new_Board (size : Z) (pieces : list piece) : grid :=
  fold_left
    (fun g pc => set_tile g {| cx := px pc; cy := py pc |} (Occupied (owner pc)))
    pieces
    (repeat (repeat Empty (Z.to_nat size)) (Z.to_nat size)).

(** Modelled from the spec: [linePath(from, to)] of section 4.1, the
    coordinates strictly between two colinear tiles.  The zero-length and
    the non-colinear request, for which the spec has an empty result, are
    [None] here, apart from the empty path between two adjacent tiles. *)
Definition linePath (from to : coord) : option (list coord) :=
  let dx := cx to - cx from in
  let dy := cy to - cy from in
  if (dx =? 0) && (dy =? 0) then None
  else if (dx =? 0) || (dy =? 0) || (Z.abs dx =? Z.abs dy) then
    let n := Z.to_nat (Z.max (Z.abs dx) (Z.abs dy)) in
    Some (map (fun k : nat =>
                 {| cx := cx from + Z.of_nat k * Z.sgn dx;
                    cy := cy from + Z.of_nat k * Z.sgn dy |})
              (seq 1 (n - 1)))
  else None.

(** Clear straight line ending on an Empty tile. *)
Definition reachable (g : grid) (from to : coord) : bool :=
  match linePath from to with
  | Some path => is_tile g to Empty && forallb (fun c => is_tile g c Empty) path
  | None => false
  end.

(** Modelled from the spec: [isLegalMove] of section 4.2. *)
Definition isLegalMove (g : grid) (seat : Z) (from to : coord) : bool :=
  is_tile g from (Occupied seat) && reachable g from to.

(** Modelled from the spec: [isLegalBurn] of section 4.2; a vacated origin
    is an Empty tile like any other. *)
Definition isLegalBurn (g : grid) (piecePosition t : coord) : bool :=
  reachable g piecePosition t.

Definition neighbours (c : coord) : list coord :=
  map (fun d : Z * Z => {| cx := cx c + fst d; cy := cy c + snd d |})
      [ (-1, -1); (-1, 0); (-1, 1); (0, -1); (0, 1); (1, -1); (1, 0); (1, 1) ].

Definition all_coords (g : grid) : list coord :=
  flat_map (fun x : nat =>
              map (fun y : nat => {| cx := Z.of_nat x; cy := Z.of_nat y |})
                  (seq 0 (length g)))
           (seq 0 (length g)).

(** Modelled from the spec: [hasAnyLegalMove] of section 4.2.  A piece can
    move exactly when one of its eight neighbours is Empty. *)
Definition hasAnyLegalMove (g : grid) (seat : Z) : bool :=
  existsb (fun c => is_tile g c (Occupied seat)
                    && existsb (fun n => is_tile g n Empty) (neighbours c))
          (all_coords g).

Inductive phase : Type := AwaitingMove | AwaitingBurn.
Inductive status : Type := Setup | Active | Finished.

(** Modelled from the spec: the Match of section 3, with the seat registry
    of section 4.5 as an association list. *)
Record game : Type :=
  { g_id : string;
    g_board : grid;
    g_seats : list (string * Z);
    g_players : list player;
    g_turn : Z;
    g_phase : phase;
    g_status : status;
    g_piece : coord;          (* where the piece moved this turn stands *)
    g_winner : option Z;
    g_timer : Z }.

Definition new_Amazons (match_id : string) (ps : list player) (b : grid)
           (timer : Z) : game :=
  {| g_id := match_id; g_board := b; g_seats := []; g_players := ps;
     g_turn := 0; g_phase := AwaitingMove; g_status := Setup;
     g_piece := {| cx := 0; cy := 0 |}; g_winner := None; g_timer := timer |}.

Definition setPlayer (g : game) (external : string) (seat : Z) : game :=
  {| g_id := g_id g; g_board := g_board g;
     g_seats := (external, seat) :: filter (fun e => negb (String.eqb (fst e) external)) (g_seats g);
     g_players := g_players g; g_turn := g_turn g; g_phase := g_phase g;
     g_status := g_status g; g_piece := g_piece g; g_winner := g_winner g;
     g_timer := g_timer g |}.

(** Owners of the pieces standing on a grid. *)
Definition owners_on (g : grid) : list Z :=
  flat_map (fun column : list tile =>
              omap (fun t => match t with
                             | Occupied s => Some s
                             | _ => None
                             end) column)
           g.

(** The seat count equals the largest owner index placed plus one. *)
Definition seats_match_pieces (g : game) : bool :=
  match owners_on (g_board g) with
  | [] => false
  | o :: os => Z.of_nat (length (g_seats g)) =? fold_right Z.max o os + 1
  end.

(** Modelled from the spec: [begin] of section 4.3, Setup to Active when
    the seat count matches the piece placement, and Setup kept otherwise. *)
Definition begin (g : game) (clients : gmap string nat) : game :=
  {| g_id := g_id g; g_board := g_board g; g_seats := g_seats g;
     g_players := g_players g; g_turn := g_turn g; g_phase := g_phase g;
     g_status := match g_status g with
                 | Setup => if seats_match_pieces g then Active else Setup
                 | s => s
                 end;
     g_piece := g_piece g; g_winner := g_winner g; g_timer := g_timer g |}.

(** Modelled from the spec: [getInternalSeat] of section 4.3; an unknown
    participant has no seat. *)
Definition getInternalId (g : game) (external : string) : jsval :=
  match find (fun e => String.eqb (fst e) external) (g_seats g) with
  | Some e => JNum (snd e)
  | None => JUndefined
  end.

Definition turn (g : game) : jsval := JNum (g_turn g).

(** An Empty or Burned tile has no owner. *)
Definition tile_owner (t : tile) : jsval :=
  match t with
  | Occupied s => JNum s
  | _ => JUndefined
  end.

Definition is_active (g : game) : bool :=
  match g_status g with Active => true | _ => false end.

(** Modelled from the spec: [attemptMove] of section 4.3 for the seat whose
    turn it is. *)
Definition attemptMove (g : game) (from to : coord) : bool * game :=
  if is_active g
     && match g_phase g with AwaitingMove => true | AwaitingBurn => false end
     && isLegalMove (g_board g) (g_turn g) from to
  then
    (true,
     {| g_id := g_id g;
        g_board := set_tile (set_tile (g_board g) from Empty) to (Occupied (g_turn g));
        g_seats := g_seats g; g_players := g_players g; g_turn := g_turn g;
        g_phase := AwaitingBurn; g_status := g_status g; g_piece := to;
        g_winner := g_winner g; g_timer := g_timer g |})
  else (false, g).

(** Modelled from the spec: [attemptBurn] of section 4.3. *)
Definition attemptBurn (g : game) (t : coord) : bool * game :=
  if is_active g
     && match g_phase g with AwaitingBurn => true | AwaitingMove => false end
     && isLegalBurn (g_board g) (g_piece g) t
  then
    let b := set_tile (g_board g) t Burned in
    let next := (g_turn g + 1) mod Z.max 1 (Z.of_nat (length (g_seats g))) in
    let over := negb (hasAnyLegalMove b next) in
    (true,
     {| g_id := g_id g; g_board := b; g_seats := g_seats g;
        g_players := g_players g; g_turn := next; g_phase := AwaitingMove;
        g_status := if over then Finished else g_status g;
        g_piece := g_piece g;
        g_winner := if over then Some (g_turn g) else g_winner g;
        g_timer := g_timer g |})
  else (false, g).

(** A client is ready once it has chosen a username. *)
Definition ready (c : Client) : bool := has_username c.

#[export] Instance modules : GameModules :=
  Build_GameModules grid tile game new_Board new_Amazons setPlayer begin
                    getInternalId turn g_board tile_owner attemptMove
                    attemptBurn ready.

End SpecEngine.

(** ** A concrete server run, used to instantiate the statements *)

Module Sample.

Import SpecEngine.

Fixpoint letters (n : nat) : string :=
  match n with
  | O => ""
  | S k => "a" ++ letters k
  end.

(** A stream of pairwise distinct base-36 strings. *)
Definition random_suffix (n : nat) : string := "k" ++ letters n.

Definition human (external : string) : player :=
  {| p_id := external; p_type := "human"; p_accepted := "accepted" |}.

Definition bot (external : string) : player :=
  {| p_id := external; p_type := "bot"; p_accepted := "accepted" |}.

(** Scenario A of the specification: a 4 x 4 board, seat 0 at (0,0) and
    seat 1 at (3,3). *)
Definition scenario_A : settings :=
  {| players := [ human "_k"; human "_ka" ];
     piece_config := [ {| px := 0; py := 0; owner := 0 |};
                       {| px := 3; py := 3; owner := 1 |} ];
     board_size := 4;
     turn_timer := 60 |}.

(** The server before any connection. *)
Definition start : state :=
  {| clients := ∅; objects := ∅; match_invites := ∅; matches := ∅;
     draws := 0 |}.

(** Two connected clients, no match yet. *)
Definition lobby : state :=
  {| clients := <["_k" := 0%nat]> (<["_ka" := 1%nat]> ∅);
     objects := <[0%nat := {| id := "_k"; username := Some "alice" |}]>
                  (<[1%nat := {| id := "_ka"; username := Some "bob" |}]> ∅);
     match_invites := ∅;
     matches := ∅;
     draws := 2 |}.

(** The match [match_start] builds from [scenario_A] in [lobby]. *)
Definition game_A : game :=
  begin (set_players (new_Amazons "match_kaa" (players scenario_A)
                                  (new_Board 4 (piece_config scenario_A)) 60)
                     (players scenario_A) 0)
        (clients lobby).

Definition playing : state :=
  {| clients := clients lobby;
     objects := objects lobby;
     match_invites := ∅;
     matches := <["match_kaa" := game_A]> ∅;
     draws := 3 |}.

(** Alice has invited bob. *)
Definition invited : state :=
  {| clients := clients lobby;
     objects := objects lobby;
     match_invites := <["matchinvite_kaa" := {| inv_from := "_k"; inv_to := "_ka" |}]> ∅;
     matches := ∅;
     draws := 3 |}.

(** Alice has invited bob and left. *)
Definition invited_alone : state :=
  {| clients := <["_ka" := 1%nat]> ∅;
     objects := objects lobby;
     match_invites := match_invites invited;
     matches := ∅;
     draws := 3 |}.

(** A generator that draws the same suffix again and again. *)
Definition redraw (n : nat) : string := "k".

(** One client has connected and been given the id "_k". *)
Definition alone : state :=
  {| clients := <["_k" := 0%nat]> ∅;
     objects := <[0%nat := {| id := "_k"; username := None |}]> ∅;
     match_invites := ∅;
     matches := ∅;
     draws := 1 |}.

(** A request for one seat, a bot sent without an id. *)
Definition bot_without_id : settings :=
  {| players := [ bot "" ];
     piece_config := [ {| px := 0; py := 0; owner := 0 |} ];
     board_size := 4;
     turn_timer := 60 |}.

Definition alice : Client := {| id := "_k"; username := Some "alice" |}.
Definition bob : Client := {| id := "_ka"; username := Some "bob" |}.

End Sample.

(** ** Vocabulary of the statements *)

Section Vocabulary.

Context `{GM : GameModules}.

Definition effects_of (r : handler_result) : list effect :=
  match r with
  | Done _ effs => effs
  | Throw => []
  end.

(** State the server is left in; the handlers that throw do so before they
    write to any of the registries. *)
Definition state_after (st : state) (r : handler_result) : state :=
  match r with
  | Done st' _ => st'
  | Throw => st
  end.

(** The board snapshots broadcast, as (match id, match) pairs. *)
Definition snapshots (effs : list effect) : list (string * Match) :=
  omap (fun e => match e with
                 | EmitBoard match_id game => Some (match_id, game)
                 | _ => None
                 end) effs.

(** The messages emitted on one socket. *)
Definition replies (sock : nat) (effs : list effect) : list (string * payload) :=
  omap (fun e => match e with
                 | SocketEmit s event p =>
                     if Nat.eqb s sock then Some (event, p) else None
                 | _ => None
                 end) effs.

(** The messages broadcast with [io.emit]. *)
Definition broadcasts (effs : list effect) : list (string * payload) :=
  omap (fun e => match e with
                 | IoEmit event p => Some (event, p)
                 | _ => None
                 end) effs.

(** The database queries issued. *)
Definition queries (effs : list effect) : list string :=
  omap (fun e => match e with
                 | DbQuery _ sql _ => Some sql
                 | _ => None
                 end) effs.

(** Number of players whose accepted flag is 'accepted'. *)
Definition count_accepted (ps : list player) : Z :=
  Z.of_nat (length (List.filter (fun p => String.eqb (p_accepted p) "accepted") ps)).

(** The largest owner index appearing in a piece configuration; an empty
    configuration has none. *)
Definition max_owner_index (pieces : list piece) : option Z :=
  match pieces with
  | [] => None
  | pc :: rest => Some (fold_right Z.max (owner pc) (map owner rest))
  end.

(** The largest of 0 and the owner indices of a configuration. *)
Definition owners_max0 (pieces : list piece) : Z :=
  fold_right Z.max 0 (map owner pieces).

(** A match was added to the registry and begun. *)
Definition match_created (st : state) (r : handler_result) : Prop :=
  exists st' effs match_id game,
    r = Done st' effs
    /\ matches st' = <[match_id := game]> (matches st)
    /\ In (BeginMatch match_id) effs.

(** The requesting client holds the seat whose turn it is. *)
Definition on_turn (game : Match) (client : Client) : bool :=
  loose_eq (turn game) (getInternalId game (id client)).

(** The tile [board[from.x][from.y]] of a match; [None] when the
    coordinates leave the grid. *)
Definition tile_at (game : Match) (from : coord) : option Tile :=
  match js_index (board_tiles game) (cx from) with
  | Some column => js_index column (cy from)
  | None => None
  end.

(** The move reached the engine and the engine accepted it. *)
Definition move_accepted (st : state) (client : Client) (d : move_data) : bool :=
  match matches st !! mv_match_id d with
  | Some game =>
      match tile_at game (mv_from d) with
      | Some tile =>
          loose_eq (tile_owner tile) (getInternalId game (id client))
          && on_turn game client
          && fst (attemptMove game (mv_from d) (mv_to d))
      | None => false
      end
  | None => false
  end.

(** The burn reached the engine and the engine accepted it. *)
Definition burn_accepted (st : state) (client : Client) (d : burn_data) : bool :=
  match matches st !! bn_match_id d with
  | Some game => on_turn game client && fst (attemptBurn game (bn_tile d))
  | None => false
  end.

(** No character of the string is an underscore, as for every string of
    base-36 digits. *)
Fixpoint no_underscore (s : string) : bool :=
  match s with
  | EmptyString => true
  | String c rest => negb (Ascii.eqb c "_") && no_underscore rest
  end.

(** The shape of the identities [genID()] hands to connections: an
    underscore followed by base-36 digits. *)
Definition is_connection_id (cid : string) : bool :=
  match cid with
  | String c rest => Ascii.eqb c "_" && no_underscore rest
  | EmptyString => false
  end.

(** The accepted seats of a request, in order. *)
Definition accepted_seats (ps : list player) : list player :=
  List.filter (fun p => String.eqb (p_accepted p) "accepted") ps.

Definition is_bot (p : player) : bool := String.eqb (p_type p) "bot".

(** The identities seats are registered under: a bot gets [genID] of the
    identity supplied for it, each bot at a draw of its own; any other seat
    keeps the identity of the request. *)
Fixpoint assign_identities (random_suffix : nat -> string) (ps : list player)
         (d : nat) : list player :=
  match ps with
  | [] => []
  | p :: ps' =>
      if is_bot p
      then with_id p (genID random_suffix (p_id p) d)
             :: assign_identities random_suffix ps' (S d)
      else p :: assign_identities random_suffix ps' d
  end.

(** Modelled from the spec: public/js/amazons.js is not under src/.
    Section 4.3 has [attemptMove] and [attemptBurn] perform no mutation
    when they fail. *)
Class CleanRejection : Prop :=
  { attemptMove_rejected :
      forall game from to game',
        attemptMove game from to = (false, game') -> game' = game;
    attemptBurn_rejected :
      forall game t game',
        attemptBurn game t = (false, game') -> game' = game }.

(** Every id of the registry leads to the object that carries it. *)
Definition registry_consistent (st : state) : Prop :=
  forall (k : string) (sock : nat),
    clients st !! k = Some sock ->
    exists c, objects st !! sock = Some c /\ id c = k.

(** Every id of the registry has the shape of a connection identity. *)
Definition registry_shaped (st : state) : Prop :=
  map_Forall (fun cid (_ : nat) => is_connection_id cid = true) (clients st).

(** Number of [logged_in] messages among the effects. *)
Definition logged_in_count (effs : list effect) : nat :=
  length (List.filter (fun e => match e with
                                | SocketEmit _ event _ => String.eqb event "logged_in"
                                | _ => false
                                end) effs).

(** The effects of a login once the database has answered: those of the
    SELECT callback and, when that issued the INSERT, those of the INSERT
    callback that follows. *)
Definition login_effects (st : state) (sock : nat) (client : Client)
           (u : string) (r : db_result) : list effect :=
  let first := select_done st sock client u r in
  match queries (effects_of first) with
  | [] => effects_of first
  | _ :: _ =>
      (effects_of first
       ++ effects_of (insert_done (state_after st first) sock))%list
  end.

(** A grid of [size] columns of [size] tiles each. *)
Definition square_grid {A : Type} (size : Z) (g : list (list A)) : Prop :=
  Z.of_nat (length g) = size
  /\ Forall (fun column => Z.of_nat (length column) = size) g.

Definition on_grid (size : Z) (c : coord) : Prop :=
  0 <= cx c < size /\ 0 <= cy c < size.

(** The entry of the list of users that the key [k] of [clients] gives:
    the id and username of the object stored under it, when that object has
    a username. *)
Definition listed (st : state) (k : string) : option (string * option string) :=
  match clients st !! k with
  | Some sock =>
      match objects st !! sock with
      | Some c => if has_username c then Some (id c, username c) else None
      | None => None
      end
  | None => None
  end.

(** [users] is the list of online users of [st]: the keys of [clients],
    each taken once, in the order [Object.keys] happens to give them,
    filtered and mapped as [listed] says. *)
Definition online_users (st : state) (users : list (string * option string)) : Prop :=
  exists keys : list string,
    NoDup keys
    /\ (forall k, In k keys <-> is_Some (clients st !! k))
    /\ users = omap (listed st) keys.


(** How the identity a seat is registered under, in [p'], relates to the
    player [p] of the request.  A bot has [genID] of the identity sent for
    it, at a draw not before [lo]: made from a non-empty identity it is
    registered in no registry of connection-shaped ids; made from an empty
    one it is an underscore and the suffix drawn, as a connection's is.  Any
    other seat keeps the identity sent. *)
Definition seat_identity (random_suffix : nat -> string) (lo : nat)
           (p p' : player) : Prop :=
  p_type p' = p_type p
  /\ p_accepted p' = p_accepted p
  /\ if is_bot p
     then exists k : nat,
         (lo <= k)%nat
         /\ p_id p' = genID random_suffix (p_id p) k
         /\ if truthy_string (p_id p)
            then is_connection_id (p_id p') = false
                 /\ forall st' : state,
                     registry_shaped st' -> clients st' !! p_id p' = None
            else p_id p' = "_" ++ random_suffix k
     else p_id p' = p_id p.

End Vocabulary.

(** * Properties *)

Section MatchStart.

Context `{GM : GameModules}.
Variable random_suffix : nat -> string.

Lemma accept_player_count (ps : list player) (acc : accepted_acc) :
  n_players (fold_left (accept_player random_suffix) ps acc)
  = n_players acc + count_accepted ps.
Proof.
  revert acc. induction ps as [|p ps IH]; intros acc.
  - unfold count_accepted. simpl. lia.
  - simpl fold_left. rewrite IH. unfold count_accepted, accept_player. simpl.
    destruct (String.eqb (p_accepted p) "accepted"); [|lia].
    destruct (String.eqb (p_type p) "bot"); simpl; lia.
Qed.

Lemma n_players_count (ps : list player) (d : nat) :
  n_players (accepted_players random_suffix ps d) = count_accepted ps.
Proof. unfold accepted_players. rewrite accept_player_count. simpl. lia. Qed.

Lemma correct_players_from (pieces : list piece) (cp : Z) :
  fold_left (fun cp pc => if owner pc >? cp then owner pc else cp) pieces cp
  = Z.max cp (fold_right Z.max cp (map owner pieces)).
Proof.
  revert cp. induction pieces as [|pc pieces IH]; intros cp; simpl.
  - lia.
  - rewrite IH. destruct (Z.gtb_spec (owner pc) cp) as [Hgt|Hle].
    + clear IH. revert Hgt. generalize (owner pc). intros o Hgt.
      induction pieces as [|q pieces IHq]; simpl; lia.
    + clear IH. lia.
Qed.

Lemma correct_players_max0 (pieces : list piece) :
  correct_players pieces = owners_max0 pieces.
Proof.
  unfold correct_players, owners_max0. rewrite correct_players_from.
  induction pieces as [|pc pieces IH]; simpl; lia.
Qed.

(** A configuration that names at least one owner, none of them negative,
    has its largest owner index as [owners_max0]. *)
Lemma owners_max0_is_max (pieces : list piece) :
  pieces <> [] ->
  Forall (fun pc => 0 <= owner pc) pieces ->
  max_owner_index pieces = Some (owners_max0 pieces).
Proof.
  destruct pieces as [|pc rest]; [congruence|].
  intros _ Hall. unfold max_owner_index, owners_max0. f_equal.
  inversion Hall as [|? ? Hpc Hrest]; subst. simpl.
  clear Hall. induction Hrest as [|q rest Hq Hrest IH]; simpl; lia.
Qed.

Lemma match_start_rejected (st : state) (s : settings) :
  count_accepted (players s) <> owners_max0 (piece_config s) + 1 ->
  match_start random_suffix st s
  = Done (set_draws st (acc_draws (accepted_players random_suffix (players s) (draws st)))) [].
Proof.
  intros Hne. unfold match_start.
  rewrite n_players_count, correct_players_max0.
  destruct (Z.eqb_spec (count_accepted (players s))
                       (owners_max0 (piece_config s) + 1)); [contradiction|].
  reflexivity.
Qed.

Lemma match_start_accepted (st : state) (s : settings) :
  count_accepted (players s) = owners_max0 (piece_config s) + 1 ->
  exists st' match_id game,
    match_start random_suffix st s
    = Done st' [ Log "socket.io" "Match begun";
                 BeginMatch match_id;
                 EmitBoard match_id game ]
    /\ matches st' = <[match_id := game]> (matches st)
    /\ clients st' = clients st
    /\ match_invites st' = match_invites st.
Proof.
  intros Heq. unfold match_start.
  rewrite n_players_count, correct_players_max0.
  destruct (Z.eqb_spec (count_accepted (players s))
                       (owners_max0 (piece_config s) + 1)); [|contradiction].
  simpl. eexists _, _, _. repeat split.
Qed.

(** C1 (amended). A match_start request creates and begins a match if and
    only if the number of players whose accepted flag is 'accepted' equals
    the largest of 0 and the owner indices of the piece configuration, plus
    one; when the counts differ the request is rejected, nothing is emitted
    and the match registry is left as it was. *)
Theorem C1_match_start_iff (st : state) (s : settings) :
  (match_created st (match_start random_suffix st s)
   <-> count_accepted (players s) = owners_max0 (piece_config s) + 1)
  /\ (count_accepted (players s) <> owners_max0 (piece_config s) + 1 ->
      effects_of (match_start random_suffix st s) = []
      /\ matches (state_after st (match_start random_suffix st s)) = matches st).
Proof.
  split.
  - split.
    + intros (st' & effs & match_id & game & Hr & _ & Hin).
      destruct (Z.eq_dec (count_accepted (players s))
                         (owners_max0 (piece_config s) + 1)) as [|Hne]; [assumption|].
      rewrite (match_start_rejected st s Hne) in Hr.
      inversion Hr; subst. destruct Hin.
    + intros Heq.
      destruct (match_start_accepted st s Heq) as (st' & match_id & game & Hr & Hm & _).
      exists st'. eexists. exists match_id, game.
      split; [exact Hr|]. split; [exact Hm|].
      simpl. auto.
  - intros Hne. rewrite (match_start_rejected st s Hne). simpl. auto.
Qed.

End MatchStart.

(** C1 (counterexample). With the single piece owner -1 and no accepted
    player, the number of accepted players equals the largest owner index
    plus one, yet match_start rejects the request; with an empty piece
    configuration no owner index appears at all, yet one accepted player
    gets a match created and begun. *)
Lemma C1_counterexample :
  (let s := {| players := [];
               piece_config := [ {| px := 0; py := 0; owner := -1 |} ];
               board_size := 4; turn_timer := 60 |} in
   max_owner_index (piece_config s) = Some (-1)
   /\ count_accepted (players s) = -1 + 1
   /\ match_start Sample.random_suffix Sample.lobby s = Done Sample.lobby [])
  /\ (let s := {| players := [ Sample.human "_k" ];
                  piece_config := [];
                  board_size := 4; turn_timer := 60 |} in
      max_owner_index (piece_config s) = None
      /\ count_accepted (players s) = 1
      /\ match_created Sample.lobby (match_start Sample.random_suffix Sample.lobby s)).
Proof.
  split.
  - repeat split.
  - split; [reflexivity|]. split; [reflexivity|].
    eexists _, _, _, _. split; [reflexivity|]. split; [reflexivity|].
    simpl. auto.
Qed.

Section Interaction.

Context `{GM : GameModules}.
Variable random_suffix : nat -> string.

Lemma get_own {V : Type} (obj : gmap string V) (k : string) (v : V) :
  obj !! k = Some v -> JS.get obj k = Own v.
Proof. intros H. unfold JS.get. rewrite H. reflexivity. Qed.

Lemma get_missing {V : Type} (obj : gmap string V) (k : string) :
  obj !! k = None -> is_proto_key k = false -> JS.get obj k = Missing.
Proof. intros H Hk. unfold JS.get. rewrite H, Hk. reflexivity. Qed.

Lemma get_inherited {V : Type} (obj : gmap string V) (k : string) :
  obj !! k = None -> is_proto_key k = true -> JS.get obj k = Inherited.
Proof. intros H Hk. unfold JS.get. rewrite H, Hk. reflexivity. Qed.

(** The handler on a match of the registry and a tile of its board. *)
Lemma attempt_move_on_board (st : state) (sock : nat) (client : Client)
      (d : move_data) (game : Match) (tile : Tile) :
  matches st !! mv_match_id d = Some game ->
  tile_at game (mv_from d) = Some tile ->
  attempt_move st sock client d
  = if loose_eq (tile_owner tile) (getInternalId game (id client))
       && on_turn game client
    then
      let st' := set_matches st (<[mv_match_id d := snd (attemptMove game (mv_from d) (mv_to d))]> (matches st)) in
      if fst (attemptMove game (mv_from d) (mv_to d))
      then Done st' [ SocketEmit sock "move_success" (PCoord (mv_to d));
                      EmitBoard (mv_match_id d)
                                (snd (attemptMove game (mv_from d) (mv_to d))) ]
      else Done st' []
    else Done st [].
Proof.
  intros Hm Ht. unfold attempt_move, tile_at, on_turn in *.
  rewrite (get_own _ _ _ Hm).
  destruct (js_index (board_tiles game) (cx (mv_from d))) as [column|]; [|discriminate].
  rewrite Ht.
  destruct (loose_eq (tile_owner tile) _ && loose_eq (turn game) _); [|reflexivity].
  destruct (attemptMove game (mv_from d) (mv_to d)) as [[|] game']; reflexivity.
Qed.

(** Reading a tile outside the grid throws. *)
Lemma attempt_move_off_board (st : state) (sock : nat) (client : Client)
      (d : move_data) (game : Match) :
  matches st !! mv_match_id d = Some game ->
  tile_at game (mv_from d) = None ->
  attempt_move st sock client d = Throw.
Proof.
  intros Hm Ht. unfold attempt_move, tile_at in *.
  rewrite (get_own _ _ _ Hm).
  destruct (js_index (board_tiles game) (cx (mv_from d))) as [column|]; [|reflexivity].
  rewrite Ht. reflexivity.
Qed.

Lemma attempt_burn_on_match (st : state) (sock : nat) (client : Client)
      (d : burn_data) (game : Match) :
  matches st !! bn_match_id d = Some game ->
  attempt_burn st sock client d
  = if on_turn game client
    then
      let st' := set_matches st (<[bn_match_id d := snd (attemptBurn game (bn_tile d))]> (matches st)) in
      if fst (attemptBurn game (bn_tile d))
      then Done st' [ SocketEmit sock "burn_success" PNone;
                      EmitBoard (bn_match_id d) (snd (attemptBurn game (bn_tile d))) ]
      else Done st' []
    else Done st [].
Proof.
  intros Hm. unfold attempt_burn, on_turn. rewrite (get_own _ _ _ Hm).
  destruct (loose_eq (turn game) _); [|reflexivity].
  destruct (attemptBurn game (bn_tile d)) as [[|] game']; reflexivity.
Qed.

(** A match id that is neither stored nor a built-in name. *)
Lemma attempt_move_unknown (st : state) (sock : nat) (client : Client) (d : move_data) :
  matches st !! mv_match_id d = None ->
  is_proto_key (mv_match_id d) = false ->
  attempt_move st sock client d = Done st [].
Proof. intros Hm Hk. unfold attempt_move. rewrite (get_missing _ _ Hm Hk). reflexivity. Qed.

Lemma attempt_burn_unknown (st : state) (sock : nat) (client : Client) (d : burn_data) :
  matches st !! bn_match_id d = None ->
  is_proto_key (bn_match_id d) = false ->
  attempt_burn st sock client d = Done st [].
Proof. intros Hm Hk. unfold attempt_burn. rewrite (get_missing _ _ Hm Hk). reflexivity. Qed.

(** A match id that is not stored but names a built-in of Object.prototype. *)
Lemma attempt_move_inherited (st : state) (sock : nat) (client : Client) (d : move_data) :
  matches st !! mv_match_id d = None ->
  is_proto_key (mv_match_id d) = true ->
  attempt_move st sock client d = Throw.
Proof. intros Hm Hk. unfold attempt_move. rewrite (get_inherited _ _ Hm Hk). reflexivity. Qed.

Lemma attempt_burn_inherited (st : state) (sock : nat) (client : Client) (d : burn_data) :
  matches st !! bn_match_id d = None ->
  is_proto_key (bn_match_id d) = true ->
  attempt_burn st sock client d = Throw.
Proof. intros Hm Hk. unfold attempt_burn. rewrite (get_inherited _ _ Hm Hk). reflexivity. Qed.

Lemma set_matches_same (st : state) (k : string) (game : Match) :
  matches st !! k = Some game ->
  set_matches st (<[k := game]> (matches st)) = st.
Proof.
  intros H. unfold set_matches. rewrite (insert_id _ _ _ H). destruct st; reflexivity.
Qed.

(** What [attempt_move] can do: an accepted move is announced and written
    back; anything else leaves the server as it was, or throws. *)
Lemma attempt_move_result (CR : CleanRejection) (st : state) (sock : nat)
      (client : Client) (d : move_data) :
  (move_accepted st client d = true
   /\ exists game,
       matches st !! mv_match_id d = Some game
       /\ attempt_move st sock client d
          = Done (set_matches st (<[mv_match_id d := snd (attemptMove game (mv_from d) (mv_to d))]> (matches st)))
                 [ SocketEmit sock "move_success" (PCoord (mv_to d));
                   EmitBoard (mv_match_id d) (snd (attemptMove game (mv_from d) (mv_to d))) ])
  \/ (move_accepted st client d = false
      /\ (attempt_move st sock client d = Done st []
          \/ attempt_move st sock client d = Throw)).
Proof.
  unfold move_accepted.
  destruct (matches st !! mv_match_id d) as [game|] eqn:Hm.
  - destruct (tile_at game (mv_from d)) as [tile|] eqn:Ht.
    + rewrite (attempt_move_on_board st sock client d game tile Hm Ht).
      destruct (loose_eq (tile_owner tile) _ && on_turn game client); simpl; [|auto].
      destruct (attemptMove game (mv_from d) (mv_to d)) as [[|] game'] eqn:Hat; simpl.
      * left. split; [reflexivity|]. exists game. rewrite Hat. split; reflexivity.
      * right. split; [reflexivity|]. left.
        rewrite (attemptMove_rejected _ _ _ _ Hat).
        rewrite (set_matches_same st _ _ Hm). reflexivity.
    + right. split; [reflexivity|]. right.
      apply (attempt_move_off_board st sock client d game Hm Ht).
  - right. split; [reflexivity|].
    destruct (is_proto_key (mv_match_id d)) eqn:Hk.
    + right. apply attempt_move_inherited; assumption.
    + left. apply attempt_move_unknown; assumption.
Qed.

Lemma attempt_burn_result (CR : CleanRejection) (st : state) (sock : nat)
      (client : Client) (d : burn_data) :
  (burn_accepted st client d = true
   /\ exists game,
       matches st !! bn_match_id d = Some game
       /\ attempt_burn st sock client d
          = Done (set_matches st (<[bn_match_id d := snd (attemptBurn game (bn_tile d))]> (matches st)))
                 [ SocketEmit sock "burn_success" PNone;
                   EmitBoard (bn_match_id d) (snd (attemptBurn game (bn_tile d))) ])
  \/ (burn_accepted st client d = false
      /\ (attempt_burn st sock client d = Done st []
          \/ attempt_burn st sock client d = Throw)).
Proof.
  unfold burn_accepted.
  destruct (matches st !! bn_match_id d) as [game|] eqn:Hm.
  - rewrite (attempt_burn_on_match st sock client d game Hm).
    destruct (on_turn game client); simpl; [|auto].
    destruct (attemptBurn game (bn_tile d)) as [[|] game'] eqn:Hat; simpl.
    + left. split; [reflexivity|]. exists game. rewrite Hat. split; reflexivity.
    + right. split; [reflexivity|]. left.
      rewrite (attemptBurn_rejected _ _ _ Hat).
      rewrite (set_matches_same st _ _ Hm). reflexivity.
  - right. split; [reflexivity|].
    destruct (is_proto_key (bn_match_id d)) eqn:Hk.
    + right. apply attempt_burn_inherited; assumption.
    + left. apply attempt_burn_unknown; assumption.
Qed.

(** C2 (amended). On an existing match, a client whose seat is not the turn
    seat never reaches the engine: its attempt_move (on a tile of the board)
    and its attempt_burn return with the server state as it was and without
    any effect, so the board is unchanged, nothing is broadcast and no
    reply, NotYourTurn or other, is sent. *)
Theorem C2_off_turn_dropped (st : state) (sock : nat) (client : Client)
        (game : Match) :
  on_turn game client = false ->
  (forall (d : move_data) (tile : Tile),
      matches st !! mv_match_id d = Some game ->
      tile_at game (mv_from d) = Some tile ->
      attempt_move st sock client d = Done st [])
  /\ (forall d : burn_data,
        matches st !! bn_match_id d = Some game ->
        attempt_burn st sock client d = Done st []).
Proof.
  intros Hturn. split.
  - intros d tile Hm Ht.
    rewrite (attempt_move_on_board st sock client d game tile Hm Ht), Hturn.
    rewrite andb_false_r. reflexivity.
  - intros d Hm.
    rewrite (attempt_burn_on_match st sock client d game Hm), Hturn. reflexivity.
Qed.

Ltac no_snapshot :=
  repeat match goal with
         | |- context [match ?x with _ => _ end] => destruct x; simpl
         | |- context [if ?b then _ else _] => destruct b; simpl
         end;
  try reflexivity.

(** C3. A board snapshot is emitted exactly when a mutation is accepted:
    one snapshot, of the match as stored, when match_start accepts the
    request, and one after every accepted move or burn; a rejected
    attempt_move or attempt_burn leaves the registry of matches as it was
    and emits no snapshot, and no other request emits one. *)
Theorem C3_snapshot_exactly_when_accepted (CR : CleanRejection) (st : state)
        (sock : nat) (client : Client) :
  (forall s : settings,
      if count_accepted (players s) =? owners_max0 (piece_config s) + 1
      then exists match_id game,
          snapshots (effects_of (match_start random_suffix st s)) = [ (match_id, game) ]
          /\ matches (state_after st (match_start random_suffix st s)) !! match_id = Some game
      else snapshots (effects_of (match_start random_suffix st s)) = [])
  /\ (forall d : move_data,
        if move_accepted st client d
        then exists game,
            snapshots (effects_of (attempt_move st sock client d)) = [ (mv_match_id d, game) ]
            /\ matches (state_after st (attempt_move st sock client d)) !! mv_match_id d = Some game
        else snapshots (effects_of (attempt_move st sock client d)) = []
             /\ matches (state_after st (attempt_move st sock client d)) = matches st)
  /\ (forall d : burn_data,
        if burn_accepted st client d
        then exists game,
            snapshots (effects_of (attempt_burn st sock client d)) = [ (bn_match_id d, game) ]
            /\ matches (state_after st (attempt_burn st sock client d)) !! bn_match_id d = Some game
        else snapshots (effects_of (attempt_burn st sock client d)) = []
             /\ matches (state_after st (attempt_burn st sock client d)) = matches st)
  /\ (forall req : request,
        match req with
        | MatchStart _ | AttemptMove _ | AttemptBurn _ => True
        | _ => snapshots (effects_of (handle random_suffix st sock req)) = []
        end).
Proof.
  split; [|split; [|split]].
  - intros s.
    destruct (Z.eqb_spec (count_accepted (players s)) (owners_max0 (piece_config s) + 1)) as [Heq|Hne].
    + destruct (match_start_accepted random_suffix st s Heq)
        as (st' & match_id & game & Hr & Hm & _).
      exists match_id, game. rewrite Hr. simpl. split; [reflexivity|].
      rewrite Hm. apply lookup_insert_eq.
    + rewrite (match_start_rejected random_suffix st s Hne). reflexivity.
  - intros d.
    destruct (attempt_move_result CR st sock client d)
      as [(Hacc & game & Hm & Hr) | (Hacc & [Hr | Hr])]; rewrite Hacc, Hr; simpl.
    + eexists. split; [reflexivity|]. apply lookup_insert_eq.
    + auto.
    + auto.
  - intros d.
    destruct (attempt_burn_result CR st sock client d)
      as [(Hacc & game & Hm & Hr) | (Hacc & [Hr | Hr])]; rewrite Hacc, Hr; simpl.
    + eexists. split; [reflexivity|]. apply lookup_insert_eq.
    + auto.
    + auto.
  - intros req. unfold handle.
    destruct req; try exact I; destruct (objects st !! sock) as [c|]; simpl;
      try reflexivity;
      unfold set_username, select_done, insert_done, player_invite,
        match_accept, match_decline, invite_reply, invite_fields, disconnect;
      no_snapshot.
Qed.

(** C4 (amended). A rejected request is dropped silently.  A match_start
    whose counts differ returns with only the count of random draws changed
    and emits nothing; an attempt_move or attempt_burn that returns without
    having been accepted leaves the whole server state as it was and emits
    nothing, so the caller is sent no failure reason. *)
Theorem C4_rejections_are_silent (CR : CleanRejection) (st : state)
        (sock : nat) (client : Client) :
  (forall s : settings,
      count_accepted (players s) <> owners_max0 (piece_config s) + 1 ->
      exists n, match_start random_suffix st s = Done (set_draws st n) [])
  /\ (forall (d : move_data) (st' : state) (effs : list effect),
        attempt_move st sock client d = Done st' effs ->
        move_accepted st client d = false ->
        st' = st /\ effs = [])
  /\ (forall (d : burn_data) (st' : state) (effs : list effect),
        attempt_burn st sock client d = Done st' effs ->
        burn_accepted st client d = false ->
        st' = st /\ effs = []).
Proof.
  split; [|split].
  - intros s Hne. eexists. apply (match_start_rejected random_suffix st s Hne).
  - intros d st' effs Hr Hacc.
    destruct (attempt_move_result CR st sock client d)
      as [(Hacc' & _) | (_ & [Hr' | Hr'])]; try congruence.
    rewrite Hr' in Hr. inversion Hr. auto.
  - intros d st' effs Hr Hacc.
    destruct (attempt_burn_result CR st sock client d)
      as [(Hacc' & _) | (_ & [Hr' | Hr'])]; try congruence.
    rewrite Hr' in Hr. inversion Hr. auto.
Qed.

(** The effects of the two handlers, whatever the engine does to a match it
    rejects. *)
Lemma attempt_move_effects (st : state) (sock : nat) (client : Client)
      (d : move_data) :
  effects_of (attempt_move st sock client d)
  = match matches st !! mv_match_id d with
    | Some game =>
        if move_accepted st client d
        then [ SocketEmit sock "move_success" (PCoord (mv_to d));
               EmitBoard (mv_match_id d) (snd (attemptMove game (mv_from d) (mv_to d))) ]
        else []
    | None => []
    end.
Proof.
  unfold move_accepted.
  destruct (matches st !! mv_match_id d) as [game|] eqn:Hm.
  - destruct (tile_at game (mv_from d)) as [tile|] eqn:Ht.
    + rewrite (attempt_move_on_board st sock client d game tile Hm Ht).
      destruct (loose_eq (tile_owner tile) _ && on_turn game client); simpl; [|reflexivity].
      destruct (fst (attemptMove game (mv_from d) (mv_to d))); reflexivity.
    + rewrite (attempt_move_off_board st sock client d game Hm Ht). reflexivity.
  - unfold attempt_move, JS.get. rewrite Hm.
    destruct (is_proto_key (mv_match_id d)); reflexivity.
Qed.

Lemma attempt_burn_effects (st : state) (sock : nat) (client : Client)
      (d : burn_data) :
  effects_of (attempt_burn st sock client d)
  = match matches st !! bn_match_id d with
    | Some game =>
        if burn_accepted st client d
        then [ SocketEmit sock "burn_success" PNone;
               EmitBoard (bn_match_id d) (snd (attemptBurn game (bn_tile d))) ]
        else []
    | None => []
    end.
Proof.
  unfold burn_accepted.
  destruct (matches st !! bn_match_id d) as [game|] eqn:Hm.
  - rewrite (attempt_burn_on_match st sock client d game Hm).
    destruct (on_turn game client); simpl; [|reflexivity].
    destruct (fst (attemptBurn game (bn_tile d))); reflexivity.
  - unfold attempt_burn, JS.get. rewrite Hm.
    destruct (is_proto_key (bn_match_id d)); reflexivity.
Qed.

(** C7. The messages sent back on the acting client's socket are exactly
    move_success with the requested target coordinate when the move is
    accepted, exactly burn_success when the burn is accepted, and none
    when the attempt is not accepted. *)
Theorem C7_success_replies (st : state) (sock : nat) (client : Client) :
  (forall d : move_data,
      replies sock (effects_of (attempt_move st sock client d))
      = if move_accepted st client d
        then [ ("move_success", PCoord (mv_to d)) ]
        else [])
  /\ (forall d : burn_data,
        replies sock (effects_of (attempt_burn st sock client d))
        = if burn_accepted st client d
          then [ ("burn_success", PNone) ]
          else []).
Proof.
  split; intros d.
  - rewrite attempt_move_effects. unfold move_accepted.
    destruct (matches st !! mv_match_id d) as [game|]; [|reflexivity].
    destruct (tile_at game (mv_from d)); [|reflexivity].
    destruct (_ && _); simpl; rewrite ?Nat.eqb_refl; reflexivity.
  - rewrite attempt_burn_effects. unfold burn_accepted.
    destruct (matches st !! bn_match_id d) as [game|]; [|reflexivity].
    destruct (_ && _); simpl; rewrite ?Nat.eqb_refl; reflexivity.
Qed.

End Interaction.

(** ** The specification's engine rejects without mutation *)

Lemma spec_engine_clean : @CleanRejection SpecEngine.modules.
Proof.
  split.
  - intros game from to game'. simpl. unfold SpecEngine.attemptMove.
    destruct (_ && _); intros H; inversion H; reflexivity.
  - intros game t game'. simpl. unfold SpecEngine.attemptBurn.
    destruct (_ && _); intros H; inversion H; reflexivity.
Qed.

(** ** The statements on the sample run *)

(** The sample states are states of the server: two connections that each
    set a username give [lobby]; from there match_start, or an invite
    followed by the inviter leaving, give the others. *)
Lemma sample_states_reached :
  let s1 := state_after Sample.start (on_connection Sample.random_suffix Sample.start 0%nat) in
  let s2 := state_after s1 (on_connection Sample.random_suffix s1 1%nat) in
  let s3 := state_after s2 (handle Sample.random_suffix s2 0%nat (SetUsername "alice")) in
  let s4 := state_after s3 (handle Sample.random_suffix s3 1%nat (SetUsername "bob")) in
  s4 = Sample.lobby
  /\ state_after Sample.lobby
       (handle Sample.random_suffix Sample.lobby 0%nat (MatchStart Sample.scenario_A))
     = Sample.playing
  /\ state_after Sample.lobby
       (handle Sample.random_suffix Sample.lobby 0%nat (PlayerInvite "_ka"))
     = Sample.invited
  /\ state_after Sample.invited
       (handle Sample.random_suffix Sample.invited 0%nat Disconnect)
     = Sample.invited_alone.
Proof. repeat split. Qed.

(** C2 (witness). In the sample match it is seat 0's turn; bob holds seat 1
    and his move from his own piece and his burn are dropped. *)
Lemma C2_witness :
  attempt_move Sample.playing 1%nat Sample.bob
    {| mv_match_id := "match_kaa";
       mv_from := {| cx := 3; cy := 3 |};
       mv_to := {| cx := 3; cy := 0 |} |}
  = Done Sample.playing []
  /\ attempt_burn Sample.playing 1%nat Sample.bob
       {| bn_match_id := "match_kaa"; bn_tile := {| cx := 1; cy := 1 |} |}
     = Done Sample.playing [].
Proof.
  destruct (C2_off_turn_dropped Sample.playing 1%nat Sample.bob Sample.game_A eq_refl)
    as [Hmove Hburn].
  split.
  - apply (Hmove _ (SpecEngine.Occupied 1)); reflexivity.
  - apply Hburn; reflexivity.
Defined.

(** C2 (counterexample). Bob holds seat 1 while it is seat 0's turn; his
    attempt_move returns with no effect at all, so nothing tells him
    NotYourTurn. *)
Lemma C2_counterexample :
  matches Sample.playing !! "match_kaa" = Some Sample.game_A
  /\ getInternalId (GameModules := SpecEngine.modules) Sample.game_A (id Sample.bob) = JNum 1
  /\ turn (GameModules := SpecEngine.modules) Sample.game_A = JNum 0
  /\ attempt_move Sample.playing 1%nat Sample.bob
       {| mv_match_id := "match_kaa";
          mv_from := {| cx := 3; cy := 3 |};
          mv_to := {| cx := 3; cy := 0 |} |}
     = Done Sample.playing []
  /\ replies 1%nat
       (effects_of
          (attempt_move Sample.playing 1%nat Sample.bob
             {| mv_match_id := "match_kaa";
                mv_from := {| cx := 3; cy := 3 |};
                mv_to := {| cx := 3; cy := 0 |} |}))
     = [].
Proof. repeat split. Qed.

(** C3 (witness). Alice's opening move (0,0) to (3,0) of Scenario A is
    accepted and followed by one snapshot of the match as stored. *)
Lemma C3_witness :
  exists game,
    snapshots
      (effects_of
         (attempt_move Sample.playing 0%nat Sample.alice
            {| mv_match_id := "match_kaa";
               mv_from := {| cx := 0; cy := 0 |};
               mv_to := {| cx := 3; cy := 0 |} |}))
    = [ ("match_kaa", game) ]
    /\ matches
         (state_after Sample.playing
            (attempt_move Sample.playing 0%nat Sample.alice
               {| mv_match_id := "match_kaa";
                  mv_from := {| cx := 0; cy := 0 |};
                  mv_to := {| cx := 3; cy := 0 |} |}))
       !! "match_kaa"
       = Some game.
Proof.
  exact (proj1 (proj2 (C3_snapshot_exactly_when_accepted
                         Sample.random_suffix spec_engine_clean
                         Sample.playing 0%nat Sample.alice))
               {| mv_match_id := "match_kaa";
                  mv_from := {| cx := 0; cy := 0 |};
                  mv_to := {| cx := 3; cy := 0 |} |}).
Defined.

(** C4 (witness). One accepted player for the two-seat configuration of
    Scenario A: match_start returns the lobby untouched with no effect. *)
Lemma C4_witness :
  exists n,
    match_start Sample.random_suffix Sample.lobby
      {| players := [ Sample.human "_k" ];
         piece_config := piece_config Sample.scenario_A;
         board_size := 4; turn_timer := 60 |}
    = Done (set_draws Sample.lobby n) [].
Proof.
  apply (proj1 (C4_rejections_are_silent Sample.random_suffix spec_engine_clean
                  Sample.lobby 0%nat Sample.alice)).
  vm_compute. discriminate.
Defined.

(** C4 (counterexample). A match_start with one accepted player for a
    two-seat configuration is rejected, and alice's burn before she has moved
    is rejected by the engine; each returns with no effect, so the caller is
    given no failure reason. *)
Lemma C4_counterexample :
  (let s := {| players := [ Sample.human "_k" ];
               piece_config := piece_config Sample.scenario_A;
               board_size := 4; turn_timer := 60 |} in
   count_accepted (players s) = 1
   /\ owners_max0 (piece_config s) + 1 = 2
   /\ match_start Sample.random_suffix Sample.lobby s = Done Sample.lobby []
   /\ replies 0%nat (effects_of (match_start Sample.random_suffix Sample.lobby s)) = [])
  /\ (let d := {| bn_match_id := "match_kaa"; bn_tile := {| cx := 1; cy := 1 |} |} in
      on_turn (GM := SpecEngine.modules) Sample.game_A Sample.alice = true
      /\ attemptBurn (GameModules := SpecEngine.modules) Sample.game_A (bn_tile d)
         = (false, Sample.game_A)
      /\ attempt_burn Sample.playing 0%nat Sample.alice d = Done Sample.playing []
      /\ replies 0%nat (effects_of (attempt_burn Sample.playing 0%nat Sample.alice d)) = []).
Proof. repeat split. Qed.

(** C5 (failing input). No match is stored under "constructor", yet the
    guard of attempt_move and attempt_burn finds the built-in of that name,
    lets the request through, and the handler throws. *)
Theorem C5_inherited_match_id_throws :
  matches Sample.playing !! "constructor" = None
  /\ attempt_move Sample.playing 0%nat Sample.alice
       {| mv_match_id := "constructor";
          mv_from := {| cx := 0; cy := 0 |};
          mv_to := {| cx := 3; cy := 0 |} |}
     = Throw
  /\ attempt_burn Sample.playing 0%nat Sample.alice
       {| bn_match_id := "constructor"; bn_tile := {| cx := 1; cy := 1 |} |}
     = Throw.
Proof. repeat split. Qed.

(** C6 (failing input). On the 4 x 4 board of the sample match, an
    attempt_move whose from lies off the board throws while reading the tile:
    x below 0, x at the size, and y at the size. *)
Theorem C6_from_off_board_throws :
  matches Sample.playing !! "match_kaa" = Some Sample.game_A
  /\ attempt_move Sample.playing 0%nat Sample.alice
       {| mv_match_id := "match_kaa";
          mv_from := {| cx := -1; cy := 0 |};
          mv_to := {| cx := 3; cy := 0 |} |}
     = Throw
  /\ attempt_move Sample.playing 0%nat Sample.alice
       {| mv_match_id := "match_kaa";
          mv_from := {| cx := 4; cy := 0 |};
          mv_to := {| cx := 3; cy := 0 |} |}
     = Throw
  /\ attempt_move Sample.playing 0%nat Sample.alice
       {| mv_match_id := "match_kaa";
          mv_from := {| cx := 0; cy := 4 |};
          mv_to := {| cx := 3; cy := 0 |} |}
     = Throw.
Proof. repeat split. Qed.

(** ** Usernames and invites *)

Section Lobby.

Context `{GM : GameModules}.
Variable random_suffix : nat -> string.

Lemma set_username_in_range (st : state) (sock : nat) (client : Client) (u : string) :
  (3 <= String.length u)%nat ->
  (String.length u <= 20)%nat ->
  set_username st sock client u
  = Done (set_objects st (<[sock := setUsername client u]> (objects st)))
         [ DbQuery sock "SELECT * FROM users WHERE username = $1;" [u];
           SocketEmit sock "username_set" (PString u);
           Log "socket.io" "Client has set username";
           IoEmit "users_list"
             (PUsers (users_info (set_objects st (<[sock := setUsername client u]> (objects st))))) ].
Proof.
  intros Hlo Hhi. unfold set_username.
  destruct (Nat.leb_spec 3 (String.length u)); [|lia].
  destruct (Nat.leb_spec (String.length u) 20); [|lia].
  reflexivity.
Qed.


Lemma listed_entry (st : state) (k : string) (sock : nat) :
  clients st !! k = Some sock ->
  listed st k
  = match objects st !! sock with
    | Some c => if has_username c then Some (id c, username c) else None
    | None => None
    end.
Proof. intros H. unfold listed. rewrite H. reflexivity. Qed.

Lemma omap_listed (st : state) (l : list (string * nat)) :
  (forall k sock, In (k, sock) l -> clients st !! k = Some sock) ->
  omap (fun kv : string * nat =>
          match objects st !! snd kv with
          | Some c => if has_username c then Some (id c, username c) else None
          | None => None
          end) l
  = omap (listed st) (map fst l).
Proof.
  induction l as [|[k sock] l IH]; intros Hl; [reflexivity|].
  assert (Htail : forall k' s', In (k', s') l -> clients st !! k' = Some s')
    by (intros k' s' Hin; apply Hl; right; exact Hin).
  specialize (IH Htail).
  pose proof (listed_entry st k sock (Hl k sock (or_introl eq_refl))) as Hhead.
  unfold omap in *. simpl in *. rewrite Hhead, IH. reflexivity.
Qed.

(** The list the handlers send is the list of online users. *)
Lemma users_info_online (st : state) : online_users st (users_info st).
Proof.
  exists (map fst (map_to_list (clients st))). split; [|split].
  - apply (NoDup_fst_map_to_list (clients st)).
  - intros k. rewrite in_map_iff. split.
    + intros ([k' sock] & <- & Hin). simpl.
      apply list_elem_of_In, elem_of_map_to_list in Hin. rewrite Hin. eauto.
    + intros [sock Hk]. exists (k, sock). split; [reflexivity|].
      apply list_elem_of_In, elem_of_map_to_list. exact Hk.
  - unfold users_info. apply omap_listed.
    intros k sock Hin. apply list_elem_of_In, elem_of_map_to_list in Hin. exact Hin.
Qed.


Lemma invite_reply_connected (response message : string) (st : state)
      (i : string) (inv : invite) (requester : nat) :
  match_invites st !! i = Some inv ->
  clients st !! inv_from inv = Some requester ->
  invite_reply response message st i
  = Done (set_match_invites st (delete i (match_invites st)))
         [ SocketEmit requester "invite_response"
             (PInviteResponse (Some (inv_to inv)) i response);
           Log "socket.io" message ].
Proof.
  intros Hi Hc. unfold invite_reply.
  rewrite (get_own _ _ _ Hi). simpl. rewrite (get_own _ _ _ Hc). reflexivity.
Qed.

Lemma invite_reply_disconnected (response message : string) (st : state)
      (i : string) (inv : invite) :
  match_invites st !! i = Some inv ->
  clients st !! inv_from inv = None ->
  is_proto_key (inv_from inv) = false ->
  invite_reply response message st i = Done st [].
Proof.
  intros Hi Hc Hk. unfold invite_reply.
  rewrite (get_own _ _ _ Hi). simpl. rewrite (get_missing _ _ Hc Hk). reflexivity.
Qed.








End Lobby.

(** ** Identities of automated seats *)

Section Identities.

Context `{GM : GameModules}.
Variable random_suffix : nat -> string.

Lemma accept_player_real (ps : list player) (acc : accepted_acc) :
  players_real (fold_left (accept_player random_suffix) ps acc)
  = (players_real acc
     ++ assign_identities random_suffix (accepted_seats ps) (acc_draws acc))%list.
Proof.
  revert acc. induction ps as [|p ps IH]; intros acc; simpl.
  - symmetry. apply app_nil_r.
  - rewrite IH. unfold accept_player, is_bot.
    destruct (String.eqb (p_accepted p) "accepted"); [|reflexivity].
    simpl. unfold is_bot.
    destruct (String.eqb (p_type p) "bot"); simpl; rewrite <- app_assoc; reflexivity.
Qed.

Lemma players_real_assigned (ps : list player) (d : nat) :
  players_real (accepted_players random_suffix ps d)
  = assign_identities random_suffix (accepted_seats ps) d.
Proof. unfold accepted_players. rewrite accept_player_real. reflexivity. Qed.

Lemma assign_identities_length (ps : list player) (d : nat) :
  length (assign_identities random_suffix ps d) = length ps.
Proof.
  revert d. induction ps as [|p ps IH]; intros d; simpl; [reflexivity|].
  destruct (is_bot p); simpl; rewrite IH; reflexivity.
Qed.

(** The loop bound [n_players] is the length of [players_real]. *)
Lemma n_players_length (ps : list player) (d : nat) :
  Z.to_nat (n_players (accepted_players random_suffix ps d))
  = length (players_real (accepted_players random_suffix ps d)).
Proof.
  rewrite n_players_count, players_real_assigned, assign_identities_length.
  unfold count_accepted, accepted_seats. apply Nat2Z.id.
Qed.

Lemma no_underscore_app (a b : string) :
  no_underscore (a ++ "_" ++ b) = false.
Proof.
  induction a as [|c a IH]; simpl; [reflexivity|].
  rewrite IH. apply andb_false_r.
Qed.

(** An identity of connection shape that [genID] produces is an underscore
    followed by the drawn suffix: a non-empty prefix would put a second
    underscore behind the first character. *)
Lemma genID_connection_shape (prefix : string) (k : nat) :
  is_connection_id (genID random_suffix prefix k) = true ->
  genID random_suffix prefix k = "_" ++ random_suffix k.
Proof.
  unfold genID, truthy_string.
  destruct prefix as [|c prefix]; simpl; [reflexivity|].
  rewrite no_underscore_app, andb_false_r. discriminate.
Qed.

(** An identity made from a non-empty prefix has an underscore behind its
    first character, which no connection identity has. *)
Lemma genID_prefixed_shape (prefix : string) (k : nat) :
  truthy_string prefix = true ->
  is_connection_id (genID random_suffix prefix k) = false.
Proof.
  intros Hp. destruct prefix as [|c prefix]; [discriminate Hp|].
  unfold genID. simpl. rewrite no_underscore_app. apply andb_false_r.
Qed.

Lemma unshaped_not_registered (st' : state) (cid : string) :
  registry_shaped st' ->
  is_connection_id cid = false ->
  clients st' !! cid = None.
Proof.
  intros Hshape Hcid.
  destruct (clients st' !! cid) as [sock|] eqn:Hc; [|reflexivity].
  pose proof (Hshape _ _ Hc) as His. simpl in His. congruence.
Qed.

Lemma assigned_seat_identities (ps : list player) (lo d : nat) :
  (lo <= d)%nat ->
  Forall2 (seat_identity random_suffix lo) ps
          (assign_identities random_suffix ps d).
Proof.
  revert d. induction ps as [|p ps IH]; intros d Hd; simpl; [constructor|].
  destruct (is_bot p) eqn:Hbot.
  - constructor; [|apply IH; lia].
    unfold seat_identity. rewrite Hbot. simpl.
    split; [reflexivity|]. split; [reflexivity|].
    exists d. split; [exact Hd|]. split; [reflexivity|].
    destruct (truthy_string (p_id p)) eqn:Hp.
    + pose proof (genID_prefixed_shape (p_id p) d Hp) as Hshape.
      split; [exact Hshape|].
      intros st' Hreg. apply unshaped_not_registered; assumption.
    + unfold genID. rewrite Hp. reflexivity.
  - constructor; [|apply IH; exact Hd].
    unfold seat_identity. rewrite Hbot. auto.
Qed.

(** C8 (amended). The seats of a match are the accepted players in order,
    each bot under the identity genID makes from the one sent for it, at a
    draw of its own, and every other seat under the identity of the request;
    the match that is stored has its seats registered from that list.  A
    bot identity made from a non-empty identity has not the shape of a
    connection identity and is registered in no registry of such
    identities, now or later; a bot sent without an identity gets an
    underscore and the suffix drawn, which is what a connection drawing that
    suffix gets. *)
Theorem C8_bot_identities (st : state) (s : settings) :
  let acc := accepted_players random_suffix (players s) (draws st) in
  players_real acc
  = assign_identities random_suffix (accepted_seats (players s)) (draws st)
  /\ Forall2 (seat_identity random_suffix (draws st))
             (accepted_seats (players s)) (players_real acc)
  /\ (count_accepted (players s) = owners_max0 (piece_config s) + 1 ->
      exists match_id,
        matches (state_after st (match_start random_suffix st s)) !! match_id
        = Some (begin
                  (set_players
                     (new_Amazons match_id (players_real acc)
                                  (new_Board (board_size s) (piece_config s))
                                  (turn_timer s))
                     (players_real acc) 0)
                  (clients st))).
Proof.
  intros acc. subst acc. split; [|split].
  - apply players_real_assigned.
  - rewrite players_real_assigned. apply assigned_seat_identities. lia.
  - intros Heq. unfold match_start.
    rewrite n_players_count, correct_players_max0.
    destruct (Z.eqb_spec (count_accepted (players s))
                         (owners_max0 (piece_config s) + 1)); [|contradiction].
    simpl. eexists. rewrite lookup_insert_eq.
    rewrite <- (n_players_count random_suffix (players s) (draws st)).
    rewrite n_players_length, firstn_all. reflexivity.
Qed.

End Identities.

Lemma lobby_ids_shape :
  map_Forall (fun cid (_ : nat) => is_connection_id cid = true)
             (clients (GM := SpecEngine.modules) Sample.lobby).
Proof.
  unfold Sample.lobby. simpl.
  apply map_Forall_insert_2; [reflexivity|].
  apply map_Forall_insert_2; [reflexivity|].
  apply map_Forall_empty.
Qed.

(** C8 (counterexample). A client connects and is given "_k".  The
    generator draws the same suffix again for a bot sent without an id: the
    bot is seated under "_k", the connection's identity, and the match
    stored resolves that connection to the bot's seat. *)
Lemma C8_counterexample :
  state_after Sample.start (on_connection Sample.redraw Sample.start 0%nat)
  = Sample.alone
  /\ clients (GM := SpecEngine.modules) Sample.alone !! "_k" = Some 0%nat
  /\ players_real
       (accepted_players Sample.redraw (players Sample.bot_without_id)
                         (draws (GM := SpecEngine.modules) Sample.alone))
     = [ Sample.bot "_k" ]
  /\ exists game,
      matches
        (state_after Sample.alone
           (match_start Sample.redraw Sample.alone Sample.bot_without_id))
      !! "match_k"
      = Some game
      /\ getInternalId (GameModules := SpecEngine.modules) game "_k" = JNum 0.
Proof.
  split; [reflexivity|]. split; [reflexivity|]. split; [reflexivity|].
  eexists. split; reflexivity.
Qed.



(** * Further properties of the handlers *)

(** ** Identifiers *)

Section Identifiers.

Variable random_suffix : nat -> string.

Lemma append_cancel_l (a b c : string) : a ++ b = a ++ c -> b = c.
Proof.
  induction a as [|ch a IH]; simpl; intros H; [exact H|].
  inversion H. auto.
Qed.

(** X1. The identifiers genID hands to connections, to invites and to
    matches are pairwise distinct, whatever the random draws: they differ
    in the text before the first underscore. *)
Theorem X1_genID_kinds_disjoint (a b c : nat) :
  genID random_suffix "" a <> genID random_suffix "matchinvite" b
  /\ genID random_suffix "" a <> genID random_suffix "match" c
  /\ genID random_suffix "matchinvite" b <> genID random_suffix "match" c.
Proof.
  unfold genID. simpl. repeat split; intros H; discriminate H.
Qed.

(** X2. For one type argument, two calls of genID return the same identifier
    exactly when Math.random gave the same suffix: the identifier is unique
    to the extent the suffix is. *)
Theorem X2_genID_same_iff_same_suffix (type : string) (n m : nat) :
  genID random_suffix type n = genID random_suffix type m
  <-> random_suffix n = random_suffix m.
Proof.
  unfold genID. split.
  - destruct (truthy_string type); intros H.
    + apply append_cancel_l in H. apply (append_cancel_l "_") in H. exact H.
    + apply (append_cancel_l "_") in H. exact H.
  - intros H. rewrite H. reflexivity.
Qed.

Lemma no_underscore_head (c : ascii) (r : string) :
  no_underscore (String c r) = true -> Ascii.eqb c "_" = false.
Proof.
  simpl. destruct (Ascii.eqb c "_"); [discriminate|reflexivity].
Qed.

Lemma connection_id_not_builtin (n : nat) :
  no_underscore (random_suffix n) = true ->
  is_proto_key (genID random_suffix "" n) = false.
Proof.
  unfold genID. simpl. destruct (random_suffix n) as [|c r]; [reflexivity|].
  intros H. apply no_underscore_head in H.
  unfold is_proto_key. simpl. rewrite H. reflexivity.
Qed.

(** X3. No identifier genID makes for an invite or a match names a built-in
    property of Object.prototype, and none it makes for a connection does
    when the suffix holds base-36 digits only; a lookup under such an
    identifier finds a stored entry or nothing. *)
Theorem X3_generated_ids_not_builtin (n : nat) :
  is_proto_key (genID random_suffix "matchinvite" n) = false
  /\ is_proto_key (genID random_suffix "match" n) = false
  /\ (no_underscore (random_suffix n) = true ->
      is_proto_key (genID random_suffix "" n) = false).
Proof.
  split; [reflexivity|]. split; [reflexivity|].
  apply connection_id_not_builtin.
Qed.

End Identifiers.

(** Case analysis on every test a handler makes. *)
Ltac each_branch :=
  repeat match goal with
         | |- context [match ?x with _ => _ end] => destruct x
         | |- context [if ?b then _ else _] => destruct b
         end.

(** ** The registry of clients *)

Section Registry.

Context `{GM : GameModules}.
Variable random_suffix : nat -> string.

Lemma in_users_info (st : state) (i : string) (u : option string) :
  In (i, u) (users_info st)
  <-> exists k sock c,
      clients st !! k = Some sock
      /\ objects st !! sock = Some c
      /\ has_username c = true
      /\ i = id c /\ u = username c.
Proof.
  unfold users_info. rewrite <- list_elem_of_In, list_elem_of_omap. split.
  - intros ([k sock] & Hin & Hf). apply elem_of_map_to_list in Hin. simpl in Hf.
    destruct (objects st !! sock) as [c|] eqn:Ho; [|discriminate].
    destruct (has_username c) eqn:Hn; [|discriminate].
    inversion Hf; subst. exists k, sock, c. auto.
  - intros (k & sock & c & Hc & Ho & Hn & -> & ->).
    exists (k, sock). split; [apply elem_of_map_to_list; exact Hc|].
    simpl. rewrite Ho, Hn. reflexivity.
Qed.

Lemma connection_consistent (st : state) (sock : nat) :
  registry_consistent st ->
  objects st !! sock = None ->
  registry_consistent (state_after st (on_connection random_suffix st sock)).
Proof.
  intros Hcons Hfresh k s. simpl. intros Hk.
  destruct (decide (genID random_suffix "" (draws st) = k)) as [<-|Hne].
  - rewrite lookup_insert_eq in Hk. inversion Hk; subst.
    rewrite lookup_insert_eq. eauto.
  - rewrite lookup_insert_ne in Hk by exact Hne.
    destruct (Hcons k s Hk) as (c & Ho & Hid).
    rewrite lookup_insert_ne by congruence. eauto.
Qed.

Lemma set_username_consistent (st st' : state) (sock : nat) (client : Client)
      (u : string) (effs : list effect) :
  registry_consistent st ->
  objects st !! sock = Some client ->
  set_username st sock client u = Done st' effs ->
  registry_consistent st'.
Proof.
  intros Hcons Hobj. unfold set_username.
  destruct (_ && _); intros H; inversion H; subst; [|exact Hcons].
  intros k s Hk. simpl in *. destruct (Hcons k s Hk) as (c & Ho & Hid).
  destruct (decide (sock = s)) as [->|Hne].
  - rewrite lookup_insert_eq. rewrite Hobj in Ho. inversion Ho; subst. eauto.
  - rewrite lookup_insert_ne by exact Hne. eauto.
Qed.

Lemma select_done_consistent (st st' : state) (sock : nat) (client : Client)
      (u : string) (r : db_result) (effs : list effect) :
  registry_consistent st ->
  objects st !! sock = Some client ->
  select_done st sock client u r = Done st' effs ->
  registry_consistent st'.
Proof.
  intros Hcons Hobj. unfold select_done.
  destruct r as [|[|uid rest]]; intros H; inversion H; subst; try exact Hcons.
  intros k s. simpl. intros Hk.
  apply lookup_delete_Some in Hk as [Hold Hk].
  destruct (decide (uid = k)) as [<-|Hne].
  - rewrite lookup_insert_eq in Hk. inversion Hk; subst.
    rewrite lookup_insert_eq. eauto.
  - rewrite lookup_insert_ne in Hk by exact Hne.
    destruct (Hcons k s Hk) as (c & Ho & Hid).
    destruct (decide (sock = s)) as [->|Hs].
    + rewrite Hobj in Ho. inversion Ho; subst. contradiction.
    + rewrite lookup_insert_ne by exact Hs. eauto.
Qed.

Lemma unchanged_consistent (st st' : state) :
  registry_consistent st ->
  clients st' = clients st ->
  objects st' = objects st ->
  registry_consistent st'.
Proof. intros Hcons Hc Ho k s. rewrite Hc, Ho. apply Hcons. Qed.

(** What every handler but the four that deal with clients leaves alone. *)
Lemma handle_keeps_clients (st st' : state) (sock : nat) (req : request)
      (effs : list effect) :
  handle random_suffix st sock req = Done st' effs ->
  match req with
  | SetUsername _ | SelectDone _ _ | Disconnect => True
  | _ => clients st' = clients st /\ objects st' = objects st
  end.
Proof.
  unfold handle. destruct (objects st !! sock) as [client|].
  - destruct req; try (intros _; exact I);
      unfold insert_done, player_invite, match_accept, match_decline,
        invite_reply, match_start, attempt_move, attempt_burn;
      each_branch; intros H; inversion H; auto.
  - intros H. inversion H; subst. destruct req; auto.
Qed.

Lemma handle_consistent (st st' : state) (sock : nat) (req : request)
      (effs : list effect) :
  registry_consistent st ->
  handle random_suffix st sock req = Done st' effs ->
  registry_consistent st'.
Proof.
  intros Hcons Hr.
  pose proof (handle_keeps_clients st st' sock req effs Hr) as Hkeep.
  destruct req as [u | u r | | p | i | i | s | d | d | ];
    try (apply (unchanged_consistent st st' Hcons (proj1 Hkeep) (proj2 Hkeep)));
    clear Hkeep; unfold handle in Hr;
    destruct (objects st !! sock) as [client|] eqn:Hobj;
    try (inversion Hr; subst; exact Hcons).
  - apply (set_username_consistent st st' sock client u effs Hcons Hobj Hr).
  - apply (select_done_consistent st st' sock client u r effs Hcons Hobj Hr).
  - unfold disconnect in Hr. inversion Hr; subst.
    intros k s. simpl. intros Hk. apply lookup_delete_Some in Hk as [_ Hk].
    apply (Hcons k s Hk).
Qed.

(** X4. The registry stays consistent: if every id of clients leads to the
    Client object carrying that id, it still does after a connection on a
    new socket and after any request a handler returns from. *)
Theorem X4_registry_consistent_kept (st : state) (sock : nat) :
  registry_consistent st ->
  (objects st !! sock = None ->
   registry_consistent (state_after st (on_connection random_suffix st sock)))
  /\ (forall (req : request) (st' : state) (effs : list effect),
        handle random_suffix st sock req = Done st' effs ->
        registry_consistent st').
Proof.
  intros Hcons. split.
  - apply connection_consistent. exact Hcons.
  - intros req st' effs. apply handle_consistent. exact Hcons.
Qed.

Lemma in_omap_listed (st : state) (keys : list string) (i : string)
      (u : option string) :
  In (i, u) (omap (listed st) keys)
  <-> exists k, In k keys /\ listed st k = Some (i, u).
Proof.
  rewrite <- list_elem_of_In, list_elem_of_omap.
  split; intros (k & Hk & Hl); exists k; split; auto; apply list_elem_of_In; exact Hk.
Qed.

Lemma listed_some (st : state) (k i : string) (u : option string) :
  listed st k = Some (i, u)
  <-> exists sock c,
      clients st !! k = Some sock
      /\ objects st !! sock = Some c
      /\ has_username c = true
      /\ i = id c /\ u = username c.
Proof.
  unfold listed. split.
  - destruct (clients st !! k) as [sock|] eqn:Hc; [|discriminate].
    destruct (objects st !! sock) as [c|] eqn:Ho; [|discriminate].
    destruct (has_username c) eqn:Hn; [|discriminate].
    intros H. inversion H; subst. exists sock, c. repeat split; auto.
  - intros (sock & c & -> & -> & -> & -> & ->). reflexivity.
Qed.

Lemma listed_ids_once (st : state) (keys : list string) :
  registry_consistent st ->
  NoDup keys ->
  NoDup (map fst (omap (listed st) keys)).
Proof.
  intros Hcons. induction keys as [|k keys IH]; intros Hnd; [constructor|].
  apply NoDup_cons in Hnd as [Hk Hnd]. specialize (IH Hnd).
  unfold omap in *. simpl.
  destruct (listed st k) as [[i u]|] eqn:Hl; [|exact IH].
  simpl. apply NoDup_cons. split; [|exact IH].
  apply listed_some in Hl as (sock & c & Hc & Ho & _ & -> & _).
  destruct (Hcons k sock Hc) as (c' & Ho' & Hid).
  assert (c' = c) by congruence. subst c'.
  intros Hin. apply Hk.
  apply list_elem_of_In, in_map_iff in Hin as ([i' u'] & Hfst & Hin').
  simpl in Hfst. subst i'.
  apply (in_omap_listed st keys) in Hin' as (k' & Hk' & Hl').
  apply listed_some in Hl' as (sock2 & c2 & Hc2 & Ho2 & _ & Hid2 & _).
  destruct (Hcons k' sock2 Hc2) as (c3 & Ho3 & Hid3).
  assert (c3 = c2) by congruence. subst c3.
  apply list_elem_of_In. congruence.
Qed.

(** X5. The users_list that an accepted set_username and a disconnect
    broadcast carries the online users of the state the handler leaves: the
    keys of clients are gone through once each, and a key gives an entry,
    the id and username of its Client object, exactly when that object has
    a non-empty username.  So the list holds those clients and nothing else,
    and in a consistent registry no id is listed twice. *)
Theorem X5_users_list_exact (st : state) (sock : nat) (client : Client)
        (u : string) :
  ((3 <= String.length u)%nat /\ (String.length u <= 20)%nat ->
   exists users,
     broadcasts (effects_of (set_username st sock client u))
     = [ ("users_list", PUsers users) ]
     /\ online_users (state_after st (set_username st sock client u)) users)
  /\ (exists users,
        broadcasts (effects_of (disconnect st client))
        = [ ("users_list", PUsers users) ]
        /\ online_users (state_after st (disconnect st client)) users)
  /\ (forall users : list (string * option string),
        online_users st users ->
        (forall (i : string) (name : option string),
            In (i, name) users
            <-> exists k s c,
                clients st !! k = Some s
                /\ objects st !! s = Some c
                /\ has_username c = true
                /\ i = id c /\ name = username c)
        /\ (registry_consistent st -> NoDup (map fst users))).
Proof.
  split; [|split].
  - intros [Hlo Hhi]. rewrite (set_username_in_range st sock client u Hlo Hhi).
    simpl. eexists. split; [reflexivity|]. apply users_info_online.
  - simpl. eexists. split; [reflexivity|].
    apply (users_info_online (set_clients st (delete (id client) (clients st)))).
  - intros users (keys & Hnd & Hkeys & ->). split.
    + intros i name. rewrite in_omap_listed. split.
      * intros (k & _ & Hl). apply listed_some in Hl as (s & c & H).
        exists k, s, c. exact H.
      * intros (k & s & c & Hc & H). exists k. split.
        -- apply Hkeys. rewrite Hc. eauto.
        -- apply listed_some. exists s, c. auto.
    + intros Hcons. apply listed_ids_once; assumption.
Qed.

End Registry.

(** ** Sessions: names, logins and departures *)

Section Sessions.

Context `{GM : GameModules}.
Variable random_suffix : nat -> string.

Lemma long_name_truthy (u : string) :
  (3 <= String.length u)%nat -> truthy_string u = true.
Proof. destruct u; simpl; [lia|reflexivity]. Qed.

(** X6. When a client registered in clients sets a name of accepted length,
    the users_list broadcast by that very request lists the client under
    its id with the new name. *)
Theorem X6_new_name_is_broadcast (st : state) (sock : nat) (client : Client)
        (u k : string) :
  (3 <= String.length u)%nat ->
  (String.length u <= 20)%nat ->
  clients st !! k = Some sock ->
  exists users,
    broadcasts (effects_of (set_username st sock client u))
    = [ ("users_list", PUsers users) ]
    /\ In (id client, Some u) users.
Proof.
  intros Hlo Hhi Hk. rewrite (set_username_in_range st sock client u Hlo Hhi).
  simpl. eexists. split; [reflexivity|].
  apply in_users_info. exists k, sock, (setUsername client u). simpl.
  rewrite lookup_insert_eq. unfold has_username. simpl.
  rewrite (long_name_truthy u Hlo). auto.
Qed.

(** X7. A disconnect removes the client's id from the registry and
    broadcasts a users_list that, for a consistent registry, is the list as
    it was without the entries of that id: nobody else is dropped and nobody
    appears. *)
Theorem X7_disconnect_unlists (st : state) (client : Client) :
  registry_consistent st ->
  exists users,
    disconnect st client
    = Done (set_clients st (delete (id client) (clients st)))
           [ Log "socket.io" "A client has disconnected";
             IoEmit "users_list" (PUsers users) ]
    /\ forall (i : string) (u : option string),
        In (i, u) users <-> In (i, u) (users_info st) /\ i <> id client.
Proof.
  intros Hcons. eexists. split; [reflexivity|].
  intros i u. rewrite !in_users_info. simpl. split.
  - intros (k & sock & c & Hk & Ho & Hn & -> & ->).
    apply lookup_delete_Some in Hk as [Hne Hk].
    split; [exists k, sock, c; auto|].
    destruct (Hcons k sock Hk) as (c' & Ho' & Hid). congruence.
  - intros [(k & sock & c & Hk & Ho & Hn & -> & ->) Hne].
    exists k, sock, c. repeat split; auto.
    apply lookup_delete_Some. split; [|exact Hk].
    destruct (Hcons k sock Hk) as (c' & Ho' & Hid). congruence.
Qed.

(** X8. When the SELECT finds a stored user_id, the callback gives the
    client that id and tells it so.  If the stored id differs from the
    current one the client is registered under the stored id and no longer
    under the old one; if it is the id the client already has, the entry
    just written is deleted again and the client is left out of the
    registry. *)
Theorem X8_login_reregisters (st : state) (sock : nat) (client : Client)
        (u uid : string) (rest : list string) :
  let r := select_done st sock client u (DbRows (uid :: rest)) in
  objects (state_after st r) !! sock = Some (changeID client uid)
  /\ replies sock (effects_of r) = [ ("id", PString uid); ("logged_in", PNone) ]
  /\ clients (state_after st r) !! id client = None
  /\ (uid <> id client -> clients (state_after st r) !! uid = Some sock)
  /\ (uid = id client -> clients (state_after st r) !! uid = None).
Proof.
  simpl. rewrite Nat.eqb_refl. split; [apply lookup_insert_eq|].
  split; [reflexivity|]. split; [apply lookup_delete_eq|]. split.
  - intros Hne. rewrite lookup_delete_ne by congruence. apply lookup_insert_eq.
  - intros ->. apply lookup_delete_eq.
Qed.

(** X9. Whatever the database answers to the SELECT (an error, no row, or a
    stored id), the login callbacks send logged_in exactly once; the INSERT
    callback sends it whether the INSERT failed or not. *)
Theorem X9_logged_in_once (st : state) (sock : nat) (client : Client)
        (u : string) (r : db_result) :
  logged_in_count (login_effects st sock client u r) = 1%nat.
Proof. destruct r as [|[|uid rest]]; reflexivity. Qed.

Lemma connection_shaped (st : state) (sock : nat) :
  registry_shaped st ->
  no_underscore (random_suffix (draws st)) = true ->
  registry_shaped (state_after st (on_connection random_suffix st sock)).
Proof.
  intros Hshape Hsuffix. unfold registry_shaped. simpl.
  apply map_Forall_insert_2; [|exact Hshape].
  unfold genID. simpl. exact Hsuffix.
Qed.

Lemma handle_shaped (st st' : state) (sock : nat) (req : request)
      (effs : list effect) :
  registry_shaped st ->
  handle random_suffix st sock req = Done st' effs ->
  (forall u uid rest,
      req = SelectDone u (DbRows (uid :: rest)) -> is_connection_id uid = true) ->
  registry_shaped st'.
Proof.
  intros Hshape Hr Hdb. unfold registry_shaped in *.
  pose proof (handle_keeps_clients random_suffix st st' sock req effs Hr) as Hkeep.
  destruct req as [u | u r | | p | i | i | s | d | d | ];
    try (rewrite (proj1 Hkeep); exact Hshape);
    clear Hkeep; unfold handle in Hr;
    destruct (objects st !! sock) as [client|];
    try (inversion Hr; subst; exact Hshape).
  - unfold set_username in Hr. destruct (_ && _); inversion Hr; subst; exact Hshape.
  - unfold select_done in Hr.
    destruct r as [|[|uid rest]]; inversion Hr; subst; try exact Hshape.
    simpl. apply map_Forall_delete. apply map_Forall_insert_2; [|exact Hshape].
    apply (Hdb u uid rest eq_refl).
  - unfold disconnect in Hr. inversion Hr; subst. simpl.
    apply map_Forall_delete. exact Hshape.
Qed.

(** X10. The ids of the registry keep the shape genID() gives them, an
    underscore followed by base-36 digits: a connection adds such an id when
    the suffix drawn holds no underscore, and a handler adds an id only in
    the SELECT callback, where it is the stored user_id. *)
Theorem X10_registry_shape_kept (st : state) (sock : nat) :
  registry_shaped st ->
  (no_underscore (random_suffix (draws st)) = true ->
   registry_shaped (state_after st (on_connection random_suffix st sock)))
  /\ (forall (req : request) (st' : state) (effs : list effect),
        handle random_suffix st sock req = Done st' effs ->
        (forall u uid rest,
            req = SelectDone u (DbRows (uid :: rest)) ->
            is_connection_id uid = true) ->
        registry_shaped st').
Proof.
  intros Hshape. split.
  - apply connection_shaped. exact Hshape.
  - intros req st' effs. apply handle_shaped. exact Hshape.
Qed.

End Sessions.

(** ** Invites *)

Section Invites.

Context `{GM : GameModules}.
Variable random_suffix : nat -> string.

Lemma player_invite_unknown (st : state) (sock : nat) (client : Client)
      (player_id : string) :
  ready client = true ->
  clients st !! player_id = None ->
  is_proto_key player_id = false ->
  player_invite random_suffix st sock client player_id
  = Done (set_draws
            (set_match_invites st
               (<[genID random_suffix "matchinvite" (draws st)
                  := {| inv_from := id client; inv_to := player_id |}]>
                  (match_invites st)))
            (S (draws st)))
         [ Log "socket.io" "Match invite sent" ].
Proof.
  intros Hready Hc Hk. unfold player_invite.
  rewrite Hready, (get_missing _ _ Hc Hk). reflexivity.
Qed.

Lemma player_invite_known (st : state) (sock : nat) (client : Client)
      (player_id : string) (peer : nat) :
  ready client = true ->
  clients st !! player_id = Some peer ->
  player_invite random_suffix st sock client player_id
  = Done (set_draws
            (set_match_invites st
               (<[genID random_suffix "matchinvite" (draws st)
                  := {| inv_from := id client; inv_to := player_id |}]>
                  (match_invites st)))
            (S (draws st)))
         [ SocketEmit peer "match_invite"
             (PMatchInvite (username client)
                           (genID random_suffix "matchinvite" (draws st)));
           SocketEmit sock "set_invite_id"
             (PSetInviteId player_id (genID random_suffix "matchinvite" (draws st)));
           Log "socket.io" "Match invite sent" ].
Proof.
  intros Hready Hc. unfold player_invite.
  rewrite Hready, (get_own _ _ _ Hc). reflexivity.
Qed.

Lemma invite_reply_not_pending (response message : string) (st : state)
      (i : string) :
  match_invites st !! i = None ->
  is_proto_key i = false ->
  invite_reply response message st i = Throw.
Proof.
  intros Hi Hk. unfold invite_reply. rewrite (get_missing _ _ Hi Hk). reflexivity.
Qed.

(** X11. A ready client that invites an id nobody is registered under still
    gets an invite stored in match_invites, under a new identifier, while no
    message is sent on any socket: the inviter is not told the identifier. *)
Theorem X11_invite_to_nobody_is_stored (st : state) (sock : nat)
        (client : Client) (player_id : string) :
  ready client = true ->
  clients st !! player_id = None ->
  is_proto_key player_id = false ->
  let r := player_invite random_suffix st sock client player_id in
  match_invites (state_after st r) !! genID random_suffix "matchinvite" (draws st)
  = Some {| inv_from := id client; inv_to := player_id |}
  /\ draws (state_after st r) = S (draws st)
  /\ forall s : nat, replies s (effects_of r) = [].
Proof.
  intros Hready Hc Hk.
  rewrite (player_invite_unknown st sock client player_id Hready Hc Hk). simpl.
  split; [apply lookup_insert_eq|]. auto.
Qed.

(** X12. Invite and answer compose: when a ready, registered client invites
    a registered player and the invite is then accepted, the inviter is sent
    invite_response naming the invited player and the new invite, and
    match_invites is again what it was before the invite. *)
Theorem X12_invite_then_accept (st : state) (sock : nat) (client : Client)
        (player_id : string) (peer : nat) :
  ready client = true ->
  clients st !! id client = Some sock ->
  clients st !! player_id = Some peer ->
  match_invites st !! genID random_suffix "matchinvite" (draws st) = None ->
  let invite_id := genID random_suffix "matchinvite" (draws st) in
  let st1 := state_after st (player_invite random_suffix st sock client player_id) in
  effects_of (match_accept st1 invite_id)
  = [ SocketEmit sock "invite_response"
        (PInviteResponse (Some player_id) invite_id "accepted");
      Log "socket.io" "Match invite accepted" ]
  /\ match_invites (state_after st1 (match_accept st1 invite_id)) = match_invites st
  /\ clients (state_after st1 (match_accept st1 invite_id)) = clients st.
Proof.
  intros Hready Hself Hpeer Hfresh invite_id st1. subst invite_id st1.
  rewrite (player_invite_known st sock client player_id peer Hready Hpeer).
  simpl state_after. unfold match_accept.
  erewrite invite_reply_connected;
    [ | simpl; apply lookup_insert_eq | simpl; exact Hself ].
  simpl. split; [reflexivity|]. split; [|reflexivity].
  apply delete_insert_id. exact Hfresh.
Qed.

(** X13. An identifier that is not pending cannot be answered: match_accept
    and match_decline throw on it; so after an invite has been accepted or
    declined with its sender connected, a second answer to it throws. *)
Theorem X13_answer_without_invite_throws (st : state) (i : string) :
  is_proto_key i = false ->
  (match_invites st !! i = None ->
   match_accept st i = Throw /\ match_decline st i = Throw)
  /\ (forall (inv : invite) (requester : nat),
        match_invites st !! i = Some inv ->
        clients st !! inv_from inv = Some requester ->
        match_accept (state_after st (match_accept st i)) i = Throw
        /\ match_decline (state_after st (match_accept st i)) i = Throw
        /\ match_accept (state_after st (match_decline st i)) i = Throw
        /\ match_decline (state_after st (match_decline st i)) i = Throw).
Proof.
  intros Hk. split.
  - intros Hi. split; apply invite_reply_not_pending; assumption.
  - intros inv requester Hi Hc. unfold match_accept, match_decline.
    rewrite !(invite_reply_connected _ _ st i inv requester Hi Hc). simpl.
    repeat split;
      (apply invite_reply_not_pending; [simpl; apply lookup_delete_eq | exact Hk]).
Qed.

(** X14. An invite names its sender by the id the sender had when inviting.
    Once the SELECT callback has found a stored id for the sender, nobody is
    registered under that old id: an answer to the invite returns without
    telling anyone, and the invite stays pending. *)
Theorem X14_invite_orphaned_by_login (st : state) (sock : nat)
        (client : Client) (u uid : string) (rest : list string)
        (i : string) (inv : invite) :
  match_invites st !! i = Some inv ->
  inv_from inv = id client ->
  is_proto_key (id client) = false ->
  let st1 := state_after st (select_done st sock client u (DbRows (uid :: rest))) in
  match_accept st1 i = Done st1 [] /\ match_decline st1 i = Done st1 [].
Proof.
  intros Hi Hfrom Hk st1. subst st1. simpl state_after.
  split;
    (apply (invite_reply_disconnected _ _ _ i inv);
     [ exact Hi
     | simpl; rewrite Hfrom; apply lookup_delete_eq
     | rewrite Hfrom; exact Hk ]).
Qed.

End Invites.

(** ** Starting a match *)

Section Starting.

Context `{GM : GameModules}.
Variable random_suffix : nat -> string.

Lemma owners_max0_bounds (pieces : list piece) :
  0 <= owners_max0 pieces
  /\ Forall (fun pc => owner pc <= owners_max0 pieces) pieces
  /\ (owners_max0 pieces = 0
      \/ exists pc, In pc pieces /\ owner pc = owners_max0 pieces).
Proof.
  unfold owners_max0. induction pieces as [|pc pieces (IH0 & IHall & IHex)]; simpl.
  - split; [lia|]. split; [constructor|]. left. reflexivity.
  - split; [lia|]. split.
    + constructor; [lia|].
      eapply Forall_impl; [exact IHall|]. simpl. intros q Hq. lia.
    + destruct (Z.max_spec (owner pc) (fold_right Z.max 0 (map owner pieces)))
        as [[Hlt ->]|[Hle ->]].
      * destruct IHex as [Hz|(q & Hin & Hq)]; [left; exact Hz|].
        right. exists q. auto.
      * right. exists pc. auto.
Qed.

(** X15. The loop over the pieces leaves in correct_players the least value
    that is at least 0 and at least every owner: it is never negative, no
    owner exceeds it, and it is 0 or the owner of some piece. *)
Theorem X15_correct_players_least_bound (pieces : list piece) :
  0 <= correct_players pieces
  /\ Forall (fun pc => owner pc <= correct_players pieces) pieces
  /\ (correct_players pieces = 0
      \/ exists pc, In pc pieces /\ owner pc = correct_players pieces).
Proof. rewrite correct_players_max0. apply owners_max0_bounds. Qed.

Lemma count_accepted_le (ps : list player) :
  count_accepted ps <= Z.of_nat (length ps).
Proof.
  unfold count_accepted. apply inj_le. apply List.filter_length_le.
Qed.

(** X16. A match is never created without an accepted player, and in a
    match that is created every owner index of the piece configuration is
    below the number of accepted players, which does not exceed the number
    of players sent. *)
Theorem X16_created_match_has_seats (st : state) (s : settings) :
  match_created st (match_start random_suffix st s) ->
  1 <= count_accepted (players s)
  /\ Forall (fun pc => owner pc < count_accepted (players s)) (piece_config s)
  /\ count_accepted (players s) <= Z.of_nat (length (players s)).
Proof.
  intros (st' & effs & match_id & game & Hr & _ & Hin).
  destruct (Z.eq_dec (count_accepted (players s))
                     (owners_max0 (piece_config s) + 1)) as [Heq|Hne].
  - destruct (owners_max0_bounds (piece_config s)) as (H0 & Hall & _).
    split; [lia|]. split; [|apply count_accepted_le].
    eapply Forall_impl; [exact Hall|]. simpl. intros pc Hpc. lia.
  - rewrite (match_start_rejected random_suffix st s Hne) in Hr.
    inversion Hr; subst. destruct Hin.
Qed.

Lemma accept_player_draws (ps : list player) (acc : accepted_acc) :
  acc_draws (fold_left (accept_player random_suffix) ps acc)
  = (acc_draws acc + length (List.filter is_bot (accepted_seats ps)))%nat.
Proof.
  revert acc. induction ps as [|p ps IH]; intros acc; simpl; [lia|].
  rewrite IH. unfold accept_player.
  destruct (String.eqb (p_accepted p) "accepted"); simpl; [|reflexivity].
  unfold is_bot at 2. destruct (String.eqb (p_type p) "bot"); simpl; lia.
Qed.

(** X17. match_start gives every accepted bot its identity before it
    validates the request: a rejected request has drawn one random suffix
    per accepted bot, an accepted one a further suffix for the match id; in
    both cases clients, the Client objects and match_invites are untouched. *)
Theorem X17_match_start_draws (st : state) (s : settings) :
  let r := match_start random_suffix st s in
  let bots := length (List.filter is_bot (accepted_seats (players s))) in
  draws (state_after st r)
  = (draws st + bots
     + if (count_accepted (players s) =? owners_max0 (piece_config s) + 1)%Z
       then 1 else 0)%nat
  /\ clients (state_after st r) = clients st
  /\ objects (state_after st r) = objects st
  /\ match_invites (state_after st r) = match_invites st.
Proof.
  simpl. unfold match_start.
  rewrite n_players_count, correct_players_max0.
  destruct (count_accepted (players s) =? owners_max0 (piece_config s) + 1);
    simpl; unfold accepted_players; rewrite accept_player_draws; simpl;
    repeat split; lia.
Qed.

(** X18. The list of seats match_start builds holds the accepted players in
    their order, one entry each, with type and accepted flag as sent, and
    the counter n_players is its length: the loop that sets the players
    reads inside the list. *)
Theorem X18_players_real_shape (ps : list player) (d : nat) :
  let acc := accepted_players random_suffix ps d in
  n_players acc = Z.of_nat (length (players_real acc))
  /\ length (players_real acc) = length (accepted_seats ps)
  /\ map p_type (players_real acc) = map p_type (accepted_seats ps)
  /\ map p_accepted (players_real acc) = map p_accepted (accepted_seats ps)
  /\ Forall (fun p => p_accepted p = "accepted") (players_real acc).
Proof.
  simpl. rewrite n_players_count, players_real_assigned, assign_identities_length.
  split; [reflexivity|]. split; [reflexivity|].
  assert (Htypes : forall l k,
             map p_type (assign_identities random_suffix l k) = map p_type l
             /\ map p_accepted (assign_identities random_suffix l k) = map p_accepted l).
  { induction l as [|p l IH]; intros k; simpl; [auto|].
    destruct (is_bot p); simpl; destruct (IH (S k)), (IH k); split; congruence. }
  destruct (Htypes (accepted_seats ps) d) as [Ht Ha].
  split; [exact Ht|]. split; [exact Ha|].
  apply List.Forall_forall. intros p Hin.
  assert (Hflag : In (p_accepted p) (map p_accepted (accepted_seats ps)))
    by (rewrite <- Ha; apply in_map; exact Hin).
  apply in_map_iff in Hflag as (q & Hq & Hqin).
  unfold accepted_seats in Hqin. apply filter_In in Hqin as [_ Hacc].
  apply String.eqb_eq in Hacc. congruence.
Qed.

End Starting.

(** ** Moves and burns *)

Section Playing.

Context `{GM : GameModules}.
Variable random_suffix : nat -> string.

Lemma js_index_in_range {A : Type} (arr : list A) (i : Z) :
  0 <= i < Z.of_nat (length arr) -> exists x, js_index arr i = Some x.
Proof.
  intros [Hlo Hhi]. unfold js_index.
  destruct (Z.leb_spec 0 i); [|lia].
  apply lookup_lt_is_Some. lia.
Qed.

Lemma js_index_out_of_range {A : Type} (arr : list A) (i : Z) :
  ~ (0 <= i < Z.of_nat (length arr)) -> js_index arr i = None.
Proof.
  intros Hout. unfold js_index.
  destruct (Z.leb_spec 0 i); [|reflexivity].
  apply lookup_ge_None. lia.
Qed.

Lemma tile_at_square (game : Match) (size : Z) (c : coord) :
  square_grid size (board_tiles game) ->
  (tile_at game c = None <-> ~ on_grid size c).
Proof.
  intros [Hlen Hcols]. unfold tile_at, on_grid.
  destruct (decide (0 <= cx c < Z.of_nat (length (board_tiles game)))) as [Hx|Hx].
  - destruct (js_index_in_range _ _ Hx) as [column Hcol]. rewrite Hcol.
    assert (Hsize : Z.of_nat (length column) = size).
    { unfold js_index in Hcol. destruct (0 <=? cx c); [|discriminate].
      rewrite List.Forall_forall in Hcols. apply Hcols.
      apply list_elem_of_In. eapply list_elem_of_lookup_2. exact Hcol. }
    destruct (decide (0 <= cy c < Z.of_nat (length column))) as [Hy|Hy].
    + destruct (js_index_in_range _ _ Hy) as [t Ht]. rewrite Ht.
      split; [discriminate|]. intros Hno. exfalso. apply Hno. lia.
    + rewrite (js_index_out_of_range _ _ Hy). split; [|reflexivity].
      intros _ [_ Hy']. apply Hy. lia.
  - rewrite (js_index_out_of_range _ _ Hx). split; [|reflexivity].
    intros _ [Hx' _]. apply Hx. lia.
Qed.

Lemma attempt_move_state (st : state) (sock : nat) (client : Client)
      (d : move_data) :
  state_after st (attempt_move st sock client d) = st
  \/ exists game game',
      matches st !! mv_match_id d = Some game
      /\ state_after st (attempt_move st sock client d)
         = set_matches st (<[mv_match_id d := game']> (matches st)).
Proof.
  destruct (matches st !! mv_match_id d) as [game|] eqn:Hm.
  - destruct (tile_at game (mv_from d)) as [tile|] eqn:Ht.
    + rewrite (attempt_move_on_board st sock client d game tile Hm Ht).
      destruct (_ && _); [|left; reflexivity].
      right. exists game. eexists. split; [reflexivity|].
      simpl. destruct (fst _); reflexivity.
    + rewrite (attempt_move_off_board st sock client d game Hm Ht). left. reflexivity.
  - left. unfold attempt_move, JS.get. rewrite Hm.
    destruct (is_proto_key _); reflexivity.
Qed.

Lemma attempt_burn_state (st : state) (sock : nat) (client : Client)
      (d : burn_data) :
  state_after st (attempt_burn st sock client d) = st
  \/ exists game game',
      matches st !! bn_match_id d = Some game
      /\ state_after st (attempt_burn st sock client d)
         = set_matches st (<[bn_match_id d := game']> (matches st)).
Proof.
  destruct (matches st !! bn_match_id d) as [game|] eqn:Hm.
  - rewrite (attempt_burn_on_match st sock client d game Hm).
    destruct (on_turn game client); [|left; reflexivity].
    right. exists game. eexists. split; [reflexivity|].
    simpl. destruct (fst _); reflexivity.
  - left. unfold attempt_burn, JS.get. rewrite Hm.
    destruct (is_proto_key _); reflexivity.
Qed.

(** A state that differs from another at most in one stored match. *)
Lemma one_match_frame (st st' : state) (k : string) :
  (st' = st
   \/ exists game game',
       matches st !! k = Some game
       /\ st' = set_matches st (<[k := game']> (matches st))) ->
  clients st' = clients st
  /\ objects st' = objects st
  /\ match_invites st' = match_invites st
  /\ draws st' = draws st
  /\ dom (matches st') = dom (matches st)
  /\ forall j, j <> k -> matches st' !! j = matches st !! j.
Proof.
  intros [->|(game & game' & Hm & ->)]; simpl; [repeat split|].
  repeat split.
  - apply dom_insert_lookup_L. rewrite Hm. eauto.
  - intros j Hj. apply lookup_insert_ne. congruence.
Qed.

(** X19. attempt_move and attempt_burn touch one match at most: clients,
    the Client objects, match_invites and the count of random draws are as
    before, no match id is added or removed, and every match but the one
    named in the request is as it was. *)
Theorem X19_attempts_touch_one_match (st : state) (sock : nat) (client : Client) :
  (forall d : move_data,
      let st' := state_after st (attempt_move st sock client d) in
      clients st' = clients st
      /\ objects st' = objects st
      /\ match_invites st' = match_invites st
      /\ draws st' = draws st
      /\ dom (matches st') = dom (matches st)
      /\ forall j, j <> mv_match_id d -> matches st' !! j = matches st !! j)
  /\ (forall d : burn_data,
        let st' := state_after st (attempt_burn st sock client d) in
        clients st' = clients st
        /\ objects st' = objects st
        /\ match_invites st' = match_invites st
        /\ draws st' = draws st
        /\ dom (matches st') = dom (matches st)
        /\ forall j, j <> bn_match_id d -> matches st' !! j = matches st !! j).
Proof.
  split; intros d; simpl; apply one_match_frame.
  - apply attempt_move_state.
  - apply attempt_burn_state.
Qed.

(** X20. On a match whose board is a square grid, attempt_move throws
    exactly when the from coordinate is off the grid; for every from on the
    grid the handler returns, whoever sends the request and whatever the
    target. *)
Theorem X20_move_throws_iff_off_grid (st : state) (sock : nat) (client : Client)
        (d : move_data) (game : Match) (size : Z) :
  matches st !! mv_match_id d = Some game ->
  square_grid size (board_tiles game) ->
  (attempt_move st sock client d = Throw <-> ~ on_grid size (mv_from d)).
Proof.
  intros Hm Hsq. rewrite <- (tile_at_square game size (mv_from d) Hsq).
  destruct (tile_at game (mv_from d)) as [tile|] eqn:Ht.
  - rewrite (attempt_move_on_board st sock client d game tile Hm Ht).
    split; [|discriminate].
    destruct (_ && _); [|discriminate]. simpl. destruct (fst _); discriminate.
  - rewrite (attempt_move_off_board st sock client d game Hm Ht).
    split; reflexivity.
Qed.

(** X21. A request naming a match id of the form genID gives matches, with
    no match stored under it, is a no-op for attempt_move and attempt_burn:
    the handler returns with the state as it was and no effect. *)
Theorem X21_stale_match_id_is_noop (st : state) (sock : nat) (client : Client)
        (n : nat) (from to tile : coord) :
  matches st !! genID random_suffix "match" n = None ->
  attempt_move st sock client
    {| mv_match_id := genID random_suffix "match" n; mv_from := from; mv_to := to |}
  = Done st []
  /\ attempt_burn st sock client
       {| bn_match_id := genID random_suffix "match" n; bn_tile := tile |}
     = Done st [].
Proof.
  intros Hm. split.
  - apply attempt_move_unknown; [exact Hm|reflexivity].
  - apply attempt_burn_unknown; [exact Hm|reflexivity].
Qed.

(** X22. No handler removes a match: after any request a handler returns
    from, every match id stored before is still stored. *)
Theorem X22_matches_never_removed (st : state) (sock : nat) (req : request)
        (k : string) :
  is_Some (matches st !! k) ->
  is_Some (matches (state_after st (handle random_suffix st sock req)) !! k).
Proof.
  intros Hk. unfold handle. destruct (objects st !! sock) as [client|]; [|exact Hk].
  destruct req as [u | u r | | p | i | i | s | d | d | ].
  - unfold set_username. destruct (_ && _); exact Hk.
  - unfold select_done. destruct r as [|[|uid rest]]; exact Hk.
  - exact Hk.
  - unfold player_invite. each_branch; exact Hk.
  - unfold match_accept, invite_reply. each_branch; exact Hk.
  - unfold match_decline, invite_reply. each_branch; exact Hk.
  - unfold match_start. destruct (negb _); [exact Hk|].
    simpl. apply lookup_insert_is_Some'. auto.
  - destruct (one_match_frame st _ (mv_match_id d)
                (attempt_move_state st sock client d)) as (_ & _ & _ & _ & Hdom & _).
    apply elem_of_dom. rewrite Hdom. apply elem_of_dom. exact Hk.
  - destruct (one_match_frame st _ (bn_match_id d)
                (attempt_burn_state st sock client d)) as (_ & _ & _ & _ & Hdom & _).
    apply elem_of_dom. rewrite Hdom. apply elem_of_dom. exact Hk.
  - exact Hk.
Qed.

End Playing.

(** ** The further properties on the sample run *)

Lemma lobby_consistent : registry_consistent Sample.lobby.
Proof.
  intros k sock. unfold Sample.lobby. simpl. intros Hk.
  apply lookup_insert_Some in Hk as [[<- <-]|[_ Hk]].
  - eexists. split; reflexivity.
  - apply lookup_insert_Some in Hk as [[<- <-]|[_ Hk]].
    + eexists. split; reflexivity.
    + rewrite lookup_empty in Hk. discriminate.
Qed.

(** X4 (witness). The lobby is consistent, and stays so after a third
    connection and after alice leaves. *)
Lemma X4_witness :
  registry_consistent
    (state_after Sample.lobby (on_connection Sample.random_suffix Sample.lobby 2%nat))
  /\ registry_consistent
       (state_after Sample.lobby
          (handle Sample.random_suffix Sample.lobby 0%nat Disconnect)).
Proof.
  split.
  - exact (proj1 (X4_registry_consistent_kept Sample.random_suffix Sample.lobby
                    2%nat lobby_consistent) eq_refl).
  - exact (proj2 (X4_registry_consistent_kept Sample.random_suffix Sample.lobby
                    0%nat lobby_consistent) Disconnect _ _ eq_refl).
Defined.

(** X6 (witness). Alice renames herself in the lobby. *)
Lemma X6_witness :
  exists users,
    broadcasts (effects_of (set_username Sample.lobby 0%nat Sample.alice "alicia"))
    = [ ("users_list", PUsers users) ]
    /\ In (id Sample.alice, Some "alicia") users.
Proof.
  apply (X6_new_name_is_broadcast Sample.lobby 0%nat Sample.alice "alicia" "_k").
  - simpl. lia.
  - simpl. lia.
  - reflexivity.
Defined.

(** X7 (witness). Alice leaves the lobby. *)
Lemma X7_witness :
  exists users,
    disconnect Sample.lobby Sample.alice
    = Done (set_clients Sample.lobby (delete (id Sample.alice) (clients Sample.lobby)))
           [ Log "socket.io" "A client has disconnected";
             IoEmit "users_list" (PUsers users) ]
    /\ forall (i : string) (u : option string),
        In (i, u) users <-> In (i, u) (users_info Sample.lobby) /\ i <> id Sample.alice.
Proof. exact (X7_disconnect_unlists Sample.lobby Sample.alice lobby_consistent). Defined.

(** X10 (witness). The ids of the lobby keep their shape after a third
    connection and after alice leaves. *)
Lemma X10_witness :
  registry_shaped
    (state_after Sample.lobby (on_connection Sample.random_suffix Sample.lobby 2%nat))
  /\ registry_shaped
       (state_after Sample.lobby
          (handle Sample.random_suffix Sample.lobby 0%nat Disconnect)).
Proof.
  split.
  - exact (proj1 (X10_registry_shape_kept Sample.random_suffix Sample.lobby
                    2%nat lobby_ids_shape) eq_refl).
  - apply (proj2 (X10_registry_shape_kept Sample.random_suffix Sample.lobby
                    0%nat lobby_ids_shape) Disconnect _ _ eq_refl).
    intros u uid rest H. discriminate H.
Defined.

(** X11 (witness). Alice invites "_zz", whom nobody is registered as. *)
Lemma X11_witness :
  match_invites
    (state_after Sample.lobby
       (player_invite Sample.random_suffix Sample.lobby 0%nat Sample.alice "_zz"))
  !! "matchinvite_kaa"
  = Some {| inv_from := "_k"; inv_to := "_zz" |}
  /\ draws
       (state_after Sample.lobby
          (player_invite Sample.random_suffix Sample.lobby 0%nat Sample.alice "_zz"))
     = 3%nat
  /\ forall s : nat,
      replies s
        (effects_of
           (player_invite Sample.random_suffix Sample.lobby 0%nat Sample.alice "_zz"))
      = [].
Proof.
  exact (X11_invite_to_nobody_is_stored Sample.random_suffix Sample.lobby 0%nat
           Sample.alice "_zz" eq_refl eq_refl eq_refl).
Defined.

(** X12 (witness). Alice invites bob and the invite is accepted. *)
Lemma X12_witness :
  effects_of
    (match_accept
       (state_after Sample.lobby
          (player_invite Sample.random_suffix Sample.lobby 0%nat Sample.alice "_ka"))
       "matchinvite_kaa")
  = [ SocketEmit 0%nat "invite_response"
        (PInviteResponse (Some "_ka") "matchinvite_kaa" "accepted");
      Log "socket.io" "Match invite accepted" ]
  /\ match_invites
       (state_after
          (state_after Sample.lobby
             (player_invite Sample.random_suffix Sample.lobby 0%nat Sample.alice "_ka"))
          (match_accept
             (state_after Sample.lobby
                (player_invite Sample.random_suffix Sample.lobby 0%nat Sample.alice "_ka"))
             "matchinvite_kaa"))
     = match_invites Sample.lobby
  /\ clients
       (state_after
          (state_after Sample.lobby
             (player_invite Sample.random_suffix Sample.lobby 0%nat Sample.alice "_ka"))
          (match_accept
             (state_after Sample.lobby
                (player_invite Sample.random_suffix Sample.lobby 0%nat Sample.alice "_ka"))
             "matchinvite_kaa"))
     = clients Sample.lobby.
Proof.
  exact (X12_invite_then_accept Sample.random_suffix Sample.lobby 0%nat
           Sample.alice "_ka" 1%nat eq_refl eq_refl eq_refl eq_refl).
Defined.

(** X13 (witness). Nothing is pending in the lobby, so an answer throws. *)
Lemma X13_witness :
  match_accept Sample.lobby "matchinvite_kaa" = Throw
  /\ match_decline Sample.lobby "matchinvite_kaa" = Throw.
Proof.
  exact (proj1 (X13_answer_without_invite_throws Sample.lobby "matchinvite_kaa" eq_refl)
               eq_refl).
Defined.

(** X14 (witness). Alice has invited bob; her login then finds the stored
    id "_old", and bob's answer reaches nobody. *)
Lemma X14_witness :
  match_accept
    (state_after Sample.invited
       (select_done Sample.invited 0%nat Sample.alice "alice" (DbRows [ "_old" ])))
    "matchinvite_kaa"
  = Done
      (state_after Sample.invited
         (select_done Sample.invited 0%nat Sample.alice "alice" (DbRows [ "_old" ])))
      []
  /\ match_decline
       (state_after Sample.invited
          (select_done Sample.invited 0%nat Sample.alice "alice" (DbRows [ "_old" ])))
       "matchinvite_kaa"
     = Done
         (state_after Sample.invited
            (select_done Sample.invited 0%nat Sample.alice "alice" (DbRows [ "_old" ])))
         [].
Proof.
  exact (X14_invite_orphaned_by_login Sample.invited 0%nat Sample.alice "alice"
           "_old" [] "matchinvite_kaa" {| inv_from := "_k"; inv_to := "_ka" |}
           eq_refl eq_refl eq_refl).
Defined.

Lemma scenario_A_created :
  match_created Sample.lobby
    (match_start Sample.random_suffix Sample.lobby Sample.scenario_A).
Proof.
  eexists _, _, _, _. split; [reflexivity|]. split; [reflexivity|].
  simpl. auto.
Qed.

(** X16 (witness). The match of Scenario A has two seats for owners 0
    and 1. *)
Lemma X16_witness :
  1 <= count_accepted (players Sample.scenario_A)
  /\ Forall (fun pc => owner pc < count_accepted (players Sample.scenario_A))
            (piece_config Sample.scenario_A)
  /\ count_accepted (players Sample.scenario_A)
     <= Z.of_nat (length (players Sample.scenario_A)).
Proof.
  exact (X16_created_match_has_seats Sample.random_suffix Sample.lobby
           Sample.scenario_A scenario_A_created).
Defined.

Lemma game_A_square :
  square_grid 4 (board_tiles (GameModules := SpecEngine.modules) Sample.game_A).
Proof. split; [reflexivity|]. repeat constructor. Qed.

(** X20 (witness). On the 4 x 4 board of the sample match. *)
Lemma X20_witness :
  attempt_move Sample.playing 0%nat Sample.alice
    {| mv_match_id := "match_kaa";
       mv_from := {| cx := 4; cy := 0 |};
       mv_to := {| cx := 3; cy := 0 |} |}
  = Throw
  <-> ~ on_grid 4 {| cx := 4; cy := 0 |}.
Proof.
  exact (X20_move_throws_iff_off_grid Sample.playing 0%nat Sample.alice
           {| mv_match_id := "match_kaa";
              mv_from := {| cx := 4; cy := 0 |};
              mv_to := {| cx := 3; cy := 0 |} |}
           Sample.game_A 4 eq_refl game_A_square).
Defined.

(** X21 (witness). No match is stored under the id of the sixth draw. *)
Lemma X21_witness :
  attempt_move Sample.playing 0%nat Sample.alice
    {| mv_match_id := "match_kaaaaa";
       mv_from := {| cx := 0; cy := 0 |};
       mv_to := {| cx := 3; cy := 0 |} |}
  = Done Sample.playing []
  /\ attempt_burn Sample.playing 0%nat Sample.alice
       {| bn_match_id := "match_kaaaaa"; bn_tile := {| cx := 1; cy := 1 |} |}
     = Done Sample.playing [].
Proof.
  exact (X21_stale_match_id_is_noop Sample.random_suffix Sample.playing 0%nat
           Sample.alice 5%nat {| cx := 0; cy := 0 |} {| cx := 3; cy := 0 |}
           {| cx := 1; cy := 1 |} eq_refl).
Defined.

(** X22 (witness). The sample match is still stored after alice's move. *)
Lemma X22_witness :
  is_Some
    (matches
       (state_after Sample.playing
          (handle Sample.random_suffix Sample.playing 0%nat
             (AttemptMove {| mv_match_id := "match_kaa";
                             mv_from := {| cx := 0; cy := 0 |};
                             mv_to := {| cx := 3; cy := 0 |} |})))
     !! "match_kaa").
Proof.
  apply (X22_matches_never_removed Sample.random_suffix Sample.playing 0%nat).
  exists Sample.game_A. reflexivity.
Defined.

(** ** Connecting *)

Section Connecting.

Context `{GM : GameModules}.
Variable random_suffix : nat -> string.

(** X23. A connection on a new socket whose identifier is not yet in the
    registry is registered under that identifier, is sent it as the only
    message, and changes nothing in the list of users: the newcomer has no
    username and is not listed. *)
Theorem X23_newcomer_not_listed (st : state) (sock : nat) :
  objects st !! sock = None ->
  clients st !! genID random_suffix "" (draws st) = None ->
  let r := on_connection random_suffix st sock in
  clients (state_after st r) !! genID random_suffix "" (draws st) = Some sock
  /\ replies sock (effects_of r)
     = [ ("id", PString (genID random_suffix "" (draws st))) ]
  /\ forall (i : string) (u : option string),
      In (i, u) (users_info (state_after st r)) <-> In (i, u) (users_info st).
Proof.
  intros Hsock Hid. simpl. rewrite Nat.eqb_refl.
  split; [apply lookup_insert_eq|]. split; [reflexivity|].
  intros i u. rewrite !in_users_info. simpl. split.
  - intros (k & s & c & Hk & Ho & Hn & -> & ->).
    apply lookup_insert_Some in Hk as [[<- <-]|[Hne Hk]].
    + rewrite lookup_insert_eq in Ho. inversion Ho; subst. discriminate Hn.
    + destruct (decide (sock = s)) as [<-|Hs].
      * rewrite lookup_insert_eq in Ho. inversion Ho; subst. discriminate Hn.
      * rewrite lookup_insert_ne in Ho by exact Hs. exists k, s, c. auto.
  - intros (k & s & c & Hk & Ho & Hn & -> & ->).
    exists k, s, c. repeat split; auto.
    + rewrite lookup_insert_ne; [exact Hk|]. congruence.
    + rewrite lookup_insert_ne; [exact Ho|]. congruence.
Qed.

End Connecting.

(** X23 (witness). A third client connects to the lobby. *)
Lemma X23_witness :
  clients
    (state_after Sample.lobby (on_connection Sample.random_suffix Sample.lobby 2%nat))
  !! "_kaa"
  = Some 2%nat
  /\ replies 2%nat
       (effects_of (on_connection Sample.random_suffix Sample.lobby 2%nat))
     = [ ("id", PString "_kaa") ]
  /\ forall (i : string) (u : option string),
      In (i, u)
         (users_info
            (state_after Sample.lobby
               (on_connection Sample.random_suffix Sample.lobby 2%nat)))
      <-> In (i, u) (users_info Sample.lobby).
Proof.
  exact (X23_newcomer_not_listed Sample.random_suffix Sample.lobby 2%nat
           eq_refl eq_refl).
Defined.
